(** * promise-poc: asynchronous control-flow idioms over a simulated I/O primitive

    A shallow embedding of [src/index.js] and of its shorter sibling
    [src/unnamed/part_000], with the properties of the retry controller, the
    timeout wrapper and the orchestration scenarios.

    Modelling conventions.
    - Time is a virtual clock in milliseconds ([Z]).  A timer registered with
      [setTimeout(f, ms)] at time [t] fires at [t + ms], and at [t + 1] when
      [ms] is below 1 or above 2^31 - 1, as Node sets such delays to 1;
      computation between suspension points takes no time.
    - Numbers are the integers among the doubles: sums and products are
      rounded to the nearest double, exact up to 2^53.  Fractions, NaN and
      the infinities (magnitudes that round to 2^1024 or more) are left
      out.
    - A promise is denoted by the instant at which it settles together with
      its outcome.  Every promise of the program is built from timers, so
      both are known when the promise is created, given the random draw of
      the operation behind it.
    - [Math.random()] is an oracle: the [i]-th simulated operation created by
      the program receives the draw [random i].
    - An [async] function, and a promise chain that its caller awaits at
      once, is a computation over the state of the run (clock, oracle
      position, console) that either returns a value or throws. *)

From Stdlib Require Import ZArith QArith List String Ascii Lia Bool DecimalString.
Import ListNotations.

Open Scope string_scope.
Open Scope Z_scope.

(** ** The JavaScript runtime, as far as the program uses it *)

Module Js.

(** What a [throw] or a rejection carries: an [Error] object with its message,
    or [undefined]. *)
Inductive Thrown : Type :=
| TUndefined
| TError (message : string).

Inductive Outcome (A : Type) : Type :=
| Fulfilled (value : A)
| Rejected (reason : Thrown).
Arguments Fulfilled {A} value.
Arguments Rejected {A} reason.

Record Promise (A : Type) : Type := mkPromise {
  settleAt : Z;
  outcome : Outcome A
}.
Arguments mkPromise {A} settleAt outcome.
Arguments settleAt {A} p.
Arguments outcome {A} p.

(** The entries of the array [Promise.allSettled] fulfils with. *)
Inductive Settled (A : Type) : Type :=
| SFulfilled (value : A)
| SRejected (reason : Thrown).
Arguments SFulfilled {A} value.
Arguments SRejected {A} reason.

(** The object a simulated operation resolves with.  [timestamp] is the
    virtual instant of completion. *)
Record Result : Type := mkResult {
  name : string;
  durationMs : Z;
  timestamp : Z
}.

(** Arguments of a console call, and console lines. *)
Inductive Arg : Type :=
| AStr (s : string)
| ANum (n : Z)
| ARes (r : Result)
| ANames (names : list string)
| ASummary (fetched : string) (processed : list string) (saved : string).

Inductive Line : Type :=
| Log (args : list Arg)
| Error (args : list Arg).

Record State : Type := mkState {
  now : Z;
  issued : nat;
  random : nat -> Q;
  console : list Line
}.

Definition M (W A : Type) : Type := W -> Outcome A * W.

Definition ret {W A} (a : A) : M W A := fun w => (Fulfilled a, w).

Definition throw {W A} (e : Thrown) : M W A := fun w => (Rejected e, w).

Definition bind {W A B} (c : M W A) (k : A -> M W B) : M W B :=
  fun w =>
    match c w with
    | (Fulfilled a, w') => k a w'
    | (Rejected e, w') => (Rejected e, w')
    end.

(** [try { c } catch (error) { h error }], and [.catch(h)] on a chain. *)
Definition try_catch {W A} (c : M W A) (h : Thrown -> M W A) : M W A :=
  fun w =>
    match c w with
    | (Fulfilled a, w') => (Fulfilled a, w')
    | (Rejected e, w') => h e w'
    end.

(** [.finally(k)]: [k] runs on either outcome; the outcome of the chain is
    kept unless [k] itself throws. *)
Definition finally {W A B} (c : M W A) (k : M W B) : M W A :=
  fun w =>
    match c w with
    | (o, w') =>
        match k w' with
        | (Fulfilled _, w'') => (o, w'')
        | (Rejected e, w'') => (Rejected e, w'')
        end
    end.

Declare Scope js_scope.
Delimit Scope js_scope with js.
Notation "x <- c ;; k" := (bind c (fun x => k))
  (at level 61, c at next level, right associativity) : js_scope.
Notation "c ;;; k" := (bind c (fun _ => k))
  (at level 61, right associativity) : js_scope.
Open Scope js_scope.

(** The decimal digits of an integer, with its sign. *)
Definition string_of_Z (z : Z) : string := NilZero.string_of_int (Z.to_int z).

(** *** Numbers *)

(** Up to [max_safe] in magnitude every integer is a double. *)
Definition max_safe : Z := 2 ^ 53.

(** The double nearest to an integer, ties to the even significand. *)
Definition round_double (z : Z) : Z :=
  let a := Z.abs z in
  if a <=? max_safe then z
  else
    let e := Z.log2 a - 52 in
    let q := a / 2 ^ e in
    let r := a mod 2 ^ e in
    let half := 2 ^ (e - 1) in
    let q' := if r <? half then q
              else if half <? r then q + 1
              else if Z.even q then q else q + 1 in
    Z.sgn z * (q' * 2 ^ e).

(** [a * b] and [a + b] on numbers. *)
Definition js_mul (a b : Z) : Z := round_double (a * b).
Definition js_add (a b : Z) : Z := round_double (a + b).

Definition decimal_length (a : Z) : Z :=
  Z.of_nat (String.length (string_of_Z a)).

(** The decimal with the fewest significant digits that reads back as the
    double [x > 0], tried with [k], [k + 1], ... significant digits out of
    the [n] digits of [x]; of two such decimals the one nearer to [x]. *)
Fixpoint shortest_decimal (fuel : nat) (k n x : Z) : Z :=
  match fuel with
  | O => x
  | S fuel' =>
      let scale := 10 ^ (n - k) in
      let lo := x / scale * scale in
      let hi := lo + scale in
      let lo_ok := (0 <? lo) && (round_double lo =? x) in
      let hi_ok := round_double hi =? x in
      if lo_ok && hi_ok
      then if x - lo <? hi - x then lo
           else if hi - x <? x - lo then hi
           else if Z.even (lo / scale) then lo else hi
      else if lo_ok then lo
      else if hi_ok then hi
      else if k <? n then shortest_decimal fuel' (k + 1) n x else x
  end.

Fixpoint strip_zeros_rev (s : list ascii) : list ascii :=
  match s with
  | "0"%char :: rest => strip_zeros_rev rest
  | _ => s
  end.

Definition strip_zeros (s : string) : string :=
  string_of_list_ascii (rev (strip_zeros_rev (rev (list_ascii_of_string s)))).

(** Template-literal conversion of a number: all the digits up to [max_safe];
    above, the shortest decimal that reads back as the double, written out
    below 10^21 and in exponent notation from there on. *)
Definition number_to_string (z : Z) : string :=
  let x := round_double z in
  let a := Z.abs x in
  if a <=? max_safe then string_of_Z x
  else
    let sign := if x <? 0 then "-" else "" in
    let v := shortest_decimal 17 1 (decimal_length a) a in
    let digits := string_of_Z v in
    if v <? 10 ^ 21 then sign ++ digits
    else
      match strip_zeros digits with
      | String c rest =>
          sign ++ String c (match rest with
                            | EmptyString => ""
                            | _ => "." ++ rest
                            end)
          ++ "e+" ++ string_of_Z (decimal_length v - 1)
      | EmptyString => sign ++ digits
      end.

(** The literals [0.7], [0.2] and [0.65] as the doubles they denote. *)
Definition double_0_7 : Q := (3152519739159347 # 4503599627370496)%Q.
Definition double_0_2 : Q := (3602879701896397 # 18014398509481984)%Q.
Definition double_0_65 : Q := (5854679515581645 # 9007199254740992)%Q.

(** [error.message]: reading a property of [undefined] throws a TypeError. *)
Definition message_of {W} (error : Thrown) : M W string :=
  match error with
  | TError m => ret m
  | TUndefined =>
      throw (TError "Cannot read properties of undefined (reading 'message')")
  end.

Definition console_log (args : list Arg) : M State unit :=
  fun st =>
    (Fulfilled tt,
     mkState (now st) (issued st) (random st) (console st ++ [Log args])).

Definition console_error (args : list Arg) : M State unit :=
  fun st =>
    (Fulfilled tt,
     mkState (now st) (issued st) (random st) (console st ++ [Error args])).

(** [Date.now()]. *)
Definition date_now : M State Z := fun st => (Fulfilled (now st), st).

(** [Math.random()] for the operation being created. *)
Definition math_random : M State Q :=
  fun st =>
    (Fulfilled (random st (issued st)),
     mkState (now st) (S (issued st)) (random st) (console st)).

(** The delay of a timer: Node sets a delay below 1 or above [TIMEOUT_MAX]
    to 1. *)
Definition TIMEOUT_MAX : Z := 2 ^ 31 - 1.

Definition timer_delay (ms : Z) : Z :=
  if (1 <=? ms) && (ms <=? TIMEOUT_MAX) then ms else 1.

(** [new Promise(resolve => setTimeout(resolve, ms))]. *)
Definition set_timeout {A} (ms : Z) (o : Outcome A) : M State (Promise A) :=
  fun st => (Fulfilled (mkPromise (now st + timer_delay ms) o), st).

(** [await p]: the caller resumes when [p] has settled. *)
Definition await {A} (p : Promise A) : M State A :=
  fun st =>
    (outcome p,
     mkState (Z.max (now st) (settleAt p)) (issued st) (random st) (console st)).

(** The instant at which a combinator created at [t] sees [p] settled. *)
Definition seenAt {A} (t : Z) (p : Promise A) : Z := Z.max t (settleAt p).

(** The first promise of [p :: ps] to settle; among promises settling at the
    same instant the one earlier in the array wins. *)
Definition first_settled {A} (t : Z) (p : Promise A) (ps : list (Promise A))
  : Promise A :=
  fold_left (fun best q => if seenAt t q <? seenAt t best then q else best) ps p.

(** [Promise.race([p, ...ps])].  The program only races non-empty arrays. *)
Definition promise_race {A} (p : Promise A) (ps : list (Promise A))
  : M State (Promise A) :=
  fun st =>
    let w := first_settled (now st) p ps in
    (Fulfilled (mkPromise (seenAt (now st) w) (outcome w)), st).

Definition is_rejected {A} (p : Promise A) : bool :=
  match outcome p with
  | Rejected _ => true
  | Fulfilled _ => false
  end.

Fixpoint fulfilled_values {A} (ps : list (Promise A)) : list A :=
  match ps with
  | [] => []
  | p :: rest =>
      match outcome p with
      | Fulfilled v => v :: fulfilled_values rest
      | Rejected _ => fulfilled_values rest
      end
  end.

Definition last_settled {A} (t : Z) (ps : list (Promise A)) : Z :=
  fold_left (fun m q => Z.max m (settleAt q)) ps t.

(** [Promise.all(ps)]: rejects with the first rejection to occur, otherwise
    fulfils, once every input has, with the values in input order. *)
Definition promise_all {A} (ps : list (Promise A)) : M State (Promise (list A)) :=
  fun st =>
    match filter is_rejected ps with
    | r :: rs =>
        let w := first_settled (now st) r rs in
        (Fulfilled
           (mkPromise (seenAt (now st) w)
              match outcome w with
              | Rejected e => Rejected e
              | Fulfilled _ => Fulfilled []
              end), st)
    | [] =>
        (Fulfilled
           (mkPromise (last_settled (now st) ps) (Fulfilled (fulfilled_values ps))),
         st)
    end.

Definition settled_of {A} (p : Promise A) : Settled A :=
  match outcome p with
  | Fulfilled v => SFulfilled v
  | Rejected e => SRejected e
  end.

(** [Promise.allSettled(ps)] keeps an array with one slot per input and a
    count of the inputs still pending.  When input [i] settles, slot [i] is
    filled with its outcome; when the last one settles, the combinator
    fulfils with the array.  It never rejects. *)

(** The inputs with their indices from [i] on, in the order in which a
    combinator created at [t] sees them settle (array order among inputs
    settling at the same instant). *)
Fixpoint insert_settled {A} (t : Z) (x : nat * Promise A)
    (l : list (nat * Promise A)) : list (nat * Promise A) :=
  match l with
  | [] => [x]
  | y :: rest =>
      if seenAt t (snd x) <=? seenAt t (snd y)
      then x :: l
      else y :: insert_settled t x rest
  end.

Fixpoint settle_order {A} (t : Z) (i : nat) (ps : list (Promise A))
  : list (nat * Promise A) :=
  match ps with
  | [] => []
  | p :: rest => insert_settled t (i, p) (settle_order t (S i) rest)
  end.

(** [values[i] = v].  The indices are those of the inputs, so the slot
    exists. *)
Fixpoint store {B} (i : nat) (v : B) (values : list (option B))
  : list (option B) :=
  match values, i with
  | [], _ => []
  | _ :: rest, O => Some v :: rest
  | x :: rest, S i' => x :: store i' v rest
  end.

Fixpoint filled {B} (values : list (option B)) : list B :=
  match values with
  | [] => []
  | Some v :: rest => v :: filled rest
  | None :: rest => filled rest
  end.

Definition promise_allSettled {A} (ps : list (Promise A))
  : M State (Promise (list (Settled A))) :=
  fun st =>
    let order := settle_order (now st) 0 ps in
    let values :=
      fold_left (fun values x => store (fst x) (settled_of (snd x)) values)
        order (repeat None (List.length ps)) in
    let settled_at :=
      fold_left (fun _ x => seenAt (now st) (snd x)) order (now st) in
    (Fulfilled (mkPromise settled_at (Fulfilled (filled values))), st).

(** [for (const x of xs) { body x }]. *)
Fixpoint for_of {W A} (xs : list A) (body : A -> M W unit) : M W unit :=
  match xs with
  | [] => ret tt
  | x :: rest => body x ;;; for_of rest body
  end.

(** [a < b] on numbers. *)
Definition num_lt (a b : Q) : bool := negb (Qle_bool b a).

End Js.

Import Js.
Open Scope js_scope.

(** The line feed of the ["\n"] escapes, and the bytes that follow ["Done "]
    in the last console line. *)
Definition nl : string := String (ascii_of_nat 10) "".

Definition done_mark : string :=
  string_of_list_ascii
    (map ascii_of_nat [195; 162; 197; 147; 226; 128; 166]%nat).

(** ** src/index.js *)

Module Index.

(** [sleep]: simulates an I/O delay. *)
Definition sleep (ms : Z) : M State (Promise unit) :=
  set_timeout ms (Fulfilled tt).

(** [fakeIO]: an operation that settles after [ms] and may fail.  [failRate]
    is [None] where the caller leaves the argument out. *)
Definition fakeIO (name : string) (ms : Z) (failRate : option Q)
  : M State (Promise Result) :=
  let failRate := match failRate with Some f => f | None => 0%Q end in
  timer <- sleep ms ;;
  draw <- math_random ;;
  let shouldFail := num_lt draw failRate in
  if shouldFail
  then ret (mkPromise (settleAt timer)
              (Rejected (TError ("[" ++ name ++ "] failed (simulated)"))))
  else ret (mkPromise (settleAt timer)
              (Fulfilled (mkResult name ms (settleAt timer)))).

(** 1) then / catch / finally + chaining. *)
Definition demoPromiseChain : M State string :=
  console_log [AStr (nl ++ "=== 1) Promise chain (then / catch / finally) ===")] ;;;
  finally
    (try_catch
       (result2 <-
          (result1 <- (p <- fakeIO "step-1" 300 None ;; await p) ;;
           console_log [AStr "success:"; ARes result1] ;;;
           p <- fakeIO "step-2" 250 None ;; await p) ;;
        console_log [AStr "success:"; ARes result2] ;;;
        ret "final result from promise chain")
       (fun error =>
          message <- message_of error ;;
          console_error [AStr "error in chain:"; AStr message] ;;;
          ret "chain recovered with fallback"))
    (console_log [AStr "finally: always executed"]).

(** 2) async / await with try / catch. *)
Definition demoAsyncAwait : M State string :=
  console_log [AStr (nl ++ "=== 2) async / await (try / catch) ===")] ;;;
  try_catch
    (result1 <- (p <- fakeIO "await-1" 200 None ;; await p) ;;
     console_log [AStr "success:"; ARes result1] ;;;
     result2 <- (p <- fakeIO "await-2" 200 None ;; await p) ;;
     console_log [AStr "success:"; ARes result2] ;;;
     ret "final result from async/await")
    (fun error =>
       message <- message_of error ;;
       console_error [AStr "error in async/await:"; AStr message] ;;;
       ret "async/await fallback result").

(** 3) Parallel execution: Promise.all. *)
Definition demoParallelAll : M State unit :=
  console_log [AStr (nl ++ "=== 3) Parallel execution with Promise.all ===")] ;;;
  start <- date_now ;;
  a <- fakeIO "A" 400 None ;;
  b <- fakeIO "B" 300 None ;;
  c <- fakeIO "C" 200 None ;;
  let tasks := [a; b; c] in
  all <- promise_all tasks ;;
  results <- await all ;;
  console_log [AStr "results:"; ANames (map name results)] ;;;
  finish <- date_now ;;
  console_log [AStr "elapsed(ms):"; ANum (finish - start)].

(** 4) Collect results without failing fast: Promise.allSettled. *)
Definition demoAllSettled : M State unit :=
  console_log [AStr (nl ++ "=== 4) Promise.allSettled (success + failure) ===")] ;;;
  s1 <- fakeIO "S1" 200 (Some 0%Q) ;;
  s2 <- fakeIO "S2" 250 (Some double_0_7) ;;
  s3 <- fakeIO "S3" 150 (Some double_0_2) ;;
  let tasks := [s1; s2; s3] in
  all <- promise_allSettled tasks ;;
  settledResults <- await all ;;
  for_of settledResults
    (fun result =>
       match result with
       | SFulfilled value => console_log [AStr "fulfilled:"; AStr (name value)]
       | SRejected reason =>
           message <- message_of reason ;;
           console_log [AStr "rejected:"; AStr message]
       end).

(** 5) First one wins: Promise.race. *)
Definition demoRace : M State unit :=
  console_log [AStr (nl ++ "=== 5) Promise.race (first to finish) ===")] ;;;
  slow <- fakeIO "slow" 400 None ;;
  fast <- fakeIO "fast" 120 None ;;
  race <- promise_race slow [fast] ;;
  winner <- await race ;;
  console_log [AStr "winner:"; AStr (name winner)].

(** 6) Timeout using Promise.race. *)
Definition withTimeout {A} (promise : Promise A) (ms : Z) : M State (Promise A) :=
  timer <- set_timeout ms
             (Rejected (TError ("timeout after " ++ number_to_string ms ++ "ms"))) ;;
  promise_race promise [timer].

Definition demoTimeout : M State unit :=
  console_log [AStr (nl ++ "=== 6) Timeout (Promise.race + timer) ===")] ;;;
  try_catch
    (operation <- fakeIO "operation" 500 None ;;
     guarded <- withTimeout operation 250 ;;
     result <- await guarded ;;
     console_log [AStr "success:"; ARes result])
    (fun error =>
       message <- message_of error ;;
       console_error [AStr "timeout/error:"; AStr message]).

(** 7) Retry with simple backoff.  The controller is written over the three
    things it does to its environment: awaiting [fn(attempt)], awaiting
    [sleep(waitTime)] and writing a console line. *)
Record RetryOptions : Type := mkRetryOptions {
  retries : option Z;
  delayMs : option Z
}.

Section RetryController.
Context {W A : Type}.
Variable await_fn : Z -> M W A.
Variable await_sleep : Z -> M W unit.
Variable log : list Arg -> M W unit.

(** The [for] loop from [attempt] on, with [remaining] iterations left
    before [attempt <= retries] fails.  The count is that of the source for
    [retries] below 2^53, where [attempt++] is exact; from 2^53 on the
    counter of the source stops growing. *)
Fixpoint retry_loop (delayMs : Z) (remaining : nat) (attempt : Z)
    (lastError : Thrown) : M W A :=
  match remaining with
  | O => throw lastError
  | S remaining' =>
      try_catch (await_fn attempt)
        (fun error =>
           let lastError := error in
           let waitTime := js_mul delayMs attempt in
           message <- message_of error ;;
           log [AStr ("attempt " ++ number_to_string attempt ++ " failed: "
                      ++ message ++ " | waiting " ++ number_to_string waitTime
                      ++ "ms")] ;;;
           await_sleep waitTime ;;;
           retry_loop delayMs remaining' (js_add attempt 1) lastError)
  end.

Definition retry (options : option RetryOptions) : M W A :=
  let options :=
    match options with Some o => o | None => mkRetryOptions None None end in
  let retries := match retries options with Some r => r | None => 3 end in
  let delayMs := match delayMs options with Some d => d | None => 200 end in
  retry_loop delayMs (Z.to_nat retries) 1 TUndefined.
End RetryController.

Definition await_sleep (ms : Z) : M State unit :=
  timer <- sleep ms ;; await timer.

(** The failure rate [0.65] is written [65 # 100]; no draw lies between
    this fraction and the double of the literal. *)
Definition demoRetry : M State unit :=
  console_log [AStr (nl ++ "=== 7) Retry with backoff ===")] ;;;
  try_catch
    (result <-
       retry (fun _ => p <- fakeIO "unstable" 150 (Some (65 # 100)%Q) ;; await p)
         await_sleep console_log
         (Some (mkRetryOptions (Some 4) (Some 150))) ;;
     console_log [AStr "success after retry:"; ARes result])
    (fun error =>
       message <- message_of error ;;
       console_error [AStr "failed after retries:"; AStr message]).

(** 8) Mini pipeline (sequential + parallel). *)
Record Pipeline : Type := mkPipeline {
  fetched : Result;
  processed : list Result;
  saved : Result
}.

Definition demoPipeline : M State Pipeline :=
  console_log [AStr (nl ++ "=== 8) Pipeline: fetch -> process -> save ===")] ;;;
  fetched <- (p <- fakeIO "fetch-data" 200 None ;; await p) ;;
  console_log [AStr "fetched:"; AStr (name fetched)] ;;;
  part1 <- fakeIO "process-part-1" 250 None ;;
  part2 <- fakeIO "process-part-2" 300 None ;;
  all <- promise_all [part1; part2] ;;
  parts <- await all ;;
  match parts with
  | part1 :: part2 :: _ =>
      console_log [AStr "processed:"; AStr (name part1); AStr (name part2)] ;;;
      saved <- (p <- fakeIO "save" 150 None ;; await p) ;;
      console_log [AStr "saved:"; AStr (name saved)] ;;;
      ret (mkPipeline fetched [part1; part2] saved)
  | _ => throw (TError "Cannot read properties of undefined (reading 'name')")
  end.

(** Runner. *)
Definition main : M State unit :=
  console_log [AStr "POC: Promises & async/await - Node.js"] ;;;
  chainResult <- demoPromiseChain ;;
  console_log [AStr "chain return:"; AStr chainResult] ;;;
  asyncAwaitResult <- demoAsyncAwait ;;
  console_log [AStr "async/await return:"; AStr asyncAwaitResult] ;;;
  demoParallelAll ;;;
  demoAllSettled ;;;
  demoRace ;;;
  demoTimeout ;;;
  demoRetry ;;;
  pipeline <- demoPipeline ;;
  console_log [AStr "final pipeline result:";
               ASummary (name (fetched pipeline))
                 (map name (processed pipeline))
                 (name (saved pipeline))] ;;;
  console_log [AStr (nl ++ "Done " ++ done_mark)].

End Index.

(** ** src/unnamed/part_000: the first six scenarios only *)

Module Part000.

(** [sleep]. *)
Definition sleep (ms : Z) : M State (Promise unit) :=
  set_timeout ms (Fulfilled tt).

(** [fakeIO]: an operation that settles after [ms] and may fail.  [failRate]
    is [None] where the caller leaves the argument out. *)
Definition fakeIO (name : string) (ms : Z) (failRate : option Q)
  : M State (Promise Result) :=
  let failRate := match failRate with Some f => f | None => 0%Q end in
  timer <- sleep ms ;;
  draw <- math_random ;;
  let shouldFail := num_lt draw failRate in
  if shouldFail
  then ret (mkPromise (settleAt timer)
              (Rejected (TError ("[" ++ name ++ "] failed (simulated)"))))
  else ret (mkPromise (settleAt timer)
              (Fulfilled (mkResult name ms (settleAt timer)))).

(** 1) then / catch / finally + chaining. *)
Definition demoPromiseChain : M State string :=
  console_log [AStr (nl ++ "=== 1) Promise chain (then / catch / finally) ===")] ;;;
  finally
    (try_catch
       (result2 <-
          (result1 <- (p <- fakeIO "step-1" 300 None ;; await p) ;;
           console_log [AStr "success:"; ARes result1] ;;;
           p <- fakeIO "step-2" 250 None ;; await p) ;;
        console_log [AStr "success:"; ARes result2] ;;;
        ret "final result from promise chain")
       (fun error =>
          message <- message_of error ;;
          console_error [AStr "error in chain:"; AStr message] ;;;
          ret "chain recovered with fallback"))
    (console_log [AStr "finally: always executed"]).

(** 2) async / await with try / catch. *)
Definition demoAsyncAwait : M State string :=
  console_log [AStr (nl ++ "=== 2) async / await (try / catch) ===")] ;;;
  try_catch
    (result1 <- (p <- fakeIO "await-1" 200 None ;; await p) ;;
     console_log [AStr "success:"; ARes result1] ;;;
     result2 <- (p <- fakeIO "await-2" 200 None ;; await p) ;;
     console_log [AStr "success:"; ARes result2] ;;;
     ret "final result from async/await")
    (fun error =>
       message <- message_of error ;;
       console_error [AStr "error in async/await:"; AStr message] ;;;
       ret "async/await fallback result").

(** 3) Parallel execution: Promise.all. *)
Definition demoParallelAll : M State unit :=
  console_log [AStr (nl ++ "=== 3) Parallel execution with Promise.all ===")] ;;;
  start <- date_now ;;
  a <- fakeIO "A" 400 None ;;
  b <- fakeIO "B" 300 None ;;
  c <- fakeIO "C" 200 None ;;
  let tasks := [a; b; c] in
  all <- promise_all tasks ;;
  results <- await all ;;
  console_log [AStr "results:"; ANames (map name results)] ;;;
  finish <- date_now ;;
  console_log [AStr "elapsed(ms):"; ANum (finish - start)].

(** 4) Collect results without failing fast: Promise.allSettled. *)
Definition demoAllSettled : M State unit :=
  console_log [AStr (nl ++ "=== 4) Promise.allSettled (success + failure) ===")] ;;;
  s1 <- fakeIO "S1" 200 (Some 0%Q) ;;
  s2 <- fakeIO "S2" 250 (Some double_0_7) ;;
  s3 <- fakeIO "S3" 150 (Some double_0_2) ;;
  let tasks := [s1; s2; s3] in
  all <- promise_allSettled tasks ;;
  settledResults <- await all ;;
  for_of settledResults
    (fun result =>
       match result with
       | SFulfilled value => console_log [AStr "fulfilled:"; AStr (name value)]
       | SRejected reason =>
           message <- message_of reason ;;
           console_log [AStr "rejected:"; AStr message]
       end).

(** 5) First one wins: Promise.race. *)
Definition demoRace : M State unit :=
  console_log [AStr (nl ++ "=== 5) Promise.race (first to finish) ===")] ;;;
  slow <- fakeIO "slow" 400 None ;;
  fast <- fakeIO "fast" 120 None ;;
  race <- promise_race slow [fast] ;;
  winner <- await race ;;
  console_log [AStr "winner:"; AStr (name winner)].

(** 6) Timeout using Promise.race. *)
Definition withTimeout {A} (promise : Promise A) (ms : Z) : M State (Promise A) :=
  timer <- set_timeout ms
             (Rejected (TError ("timeout after " ++ number_to_string ms ++ "ms"))) ;;
  promise_race promise [timer].

Definition demoTimeout : M State unit :=
  console_log [AStr (nl ++ "=== 6) Timeout (Promise.race + timer) ===")] ;;;
  try_catch
    (operation <- fakeIO "operation" 500 None ;;
     guarded <- withTimeout operation 250 ;;
     result <- await guarded ;;
     console_log [AStr "success:"; ARes result])
    (fun error =>
       message <- message_of error ;;
       console_error [AStr "timeout/error:"; AStr message]).

(** Runner. *)
Definition main : M State unit :=
  console_log [AStr "POC: Promises & async/await - Node.js"] ;;;
  chainResult <- demoPromiseChain ;;
  console_log [AStr "chain return:"; AStr chainResult] ;;;
  asyncAwaitResult <- demoAsyncAwait ;;
  console_log [AStr "async/await return:"; AStr asyncAwaitResult] ;;;
  demoParallelAll ;;;
  demoAllSettled ;;;
  demoRace ;;;
  demoTimeout ;;;
  console_log [AStr (nl ++ "Done " ++ done_mark)].

End Part000.

(** ** Observing the retry controller

    An environment that only records what the controller does to it: the
    attempt numbers the operation factory is invoked with are counted, the
    waits and the console lines are kept in order.  The factory's outcome
    is a function of the attempt number. *)

Record Spy : Type := mkSpy {
  spy_calls : nat;
  spy_waits : list Z;
  spy_lines : list (list Arg)
}.

Definition spy_fn {A} (behaviour : Z -> Outcome A) (attempt : Z) : M Spy A :=
  fun s => (behaviour attempt,
            mkSpy (S (spy_calls s)) (spy_waits s) (spy_lines s)).

Definition spy_sleep (ms : Z) : M Spy unit :=
  fun s => (Fulfilled tt,
            mkSpy (spy_calls s) (spy_waits s ++ [ms]) (spy_lines s)).

Definition spy_log (args : list Arg) : M Spy unit :=
  fun s => (Fulfilled tt,
            mkSpy (spy_calls s) (spy_waits s) (spy_lines s ++ [args])).

(** The run state together with a record of the waits served, and the
    program's own operations lifted to it. *)
Definition traced {A} (c : M State A) : M (State * list Z) A :=
  fun w => let (o, st') := c (fst w) in (o, (st', snd w)).

Definition traced_sleep (ms : Z) : M (State * list Z) unit :=
  fun w =>
    let (o, st') := Index.await_sleep ms (fst w) in
    (o, (st', (snd w ++ [ms])%list)).

(** A factory that fails on the attempts before [k] and succeeds from [k] on. *)
Definition succeeds_from (k : Z) (attempt : Z) : Outcome Z :=
  if attempt <? k
  then Rejected (TError ("failure " ++ string_of_Z attempt))
  else Fulfilled attempt.

(** The waits of [n] consecutive failed attempts starting at [attempt]. *)
Fixpoint backoffs (delayMs : Z) (attempt : Z) (n : nat) : list Z :=
  match n with
  | O => []
  | S n' => delayMs * attempt :: backoffs delayMs (attempt + 1) n'
  end.

Definition sumZ (l : list Z) : Z := fold_right Z.add 0 l.

(** ** Observing a run *)

(** [Math.random()] returns a number in [[0, 1)]. *)
Definition valid_oracle (r : nat -> Q) : Prop :=
  forall i : nat, (0 <= r i < 1)%Q.

(** The banner a scenario prints when it starts: a single string argument
    that begins with a line feed and ["=== "]. *)
Definition is_banner (l : Line) : bool :=
  match l with
  | Log [AStr s] => String.prefix (nl ++ "=== ") s
  | _ => false
  end.

Definition banners (c : list Line) : list Line := filter is_banner c.

(** The eight banners of [src/index.js], in the order of [main]. *)
Definition scenario_banners : list Line :=
  map (fun s => Log [AStr (nl ++ s)])
    ["=== 1) Promise chain (then / catch / finally) ===";
     "=== 2) async / await (try / catch) ===";
     "=== 3) Parallel execution with Promise.all ===";
     "=== 4) Promise.allSettled (success + failure) ===";
     "=== 5) Promise.race (first to finish) ===";
     "=== 6) Timeout (Promise.race + timer) ===";
     "=== 7) Retry with backoff ===";
     "=== 8) Pipeline: fetch -> process -> save ==="].

(** A stretch of a run from [st] to [st']: the oracle is the same and the
    banners [bs] were printed, in this order. *)
Definition stretch (bs : list Line) (st st' : State) : Prop :=
  random st' = random st /\
  banners (console st') = (banners (console st) ++ bs)%list.

(** [c] runs to completion from every state with a valid oracle, printing
    the banners [bs] on the way. *)
Definition completes {A : Type} (c : M State A) (bs : list Line) : Prop :=
  forall st : State,
    valid_oracle (random st) ->
    exists (v : A) (st' : State), c st = (Fulfilled v, st') /\ stretch bs st st'.

(** The line the settle-all scenario prints for one operation. *)
Definition settled_line (nm : string) (failed : bool) : Line :=
  if failed
  then Log [AStr "rejected:"; AStr ("[" ++ nm ++ "] failed (simulated)")]
  else Log [AStr "fulfilled:"; AStr nm].

(** The console line of the retry controller for a failed attempt. *)
Definition attempt_line (message : string) (delayMs attempt : Z) : Line :=
  Log [AStr ("attempt " ++ number_to_string attempt ++ " failed: " ++ message
             ++ " | waiting " ++ number_to_string (js_mul delayMs attempt)
             ++ "ms")].

(** The lines of [n] consecutive failed attempts starting at [attempt]. *)
Fixpoint attempt_lines (message : string) (delayMs attempt : Z) (n : nat)
  : list Line :=
  match n with
  | O => []
  | S n' =>
      attempt_line message delayMs attempt
      :: attempt_lines message delayMs (attempt + 1) n'
  end.

(** A factory that rejects with [undefined] on every attempt. *)
Definition rejects_undefined (attempt : Z) : Outcome Z := Rejected TUndefined.

(** A factory that fails on the attempts whose number [flaky] accepts. *)
Definition fails_when (flaky : Z -> bool) (attempt : Z) : Outcome Z :=
  if flaky attempt
  then Rejected (TError ("failure " ++ string_of_Z attempt))
  else Fulfilled attempt.

(** How many of the draws [from], [from + 1], ... fail in a row, within a
    budget of [budget] attempts. *)
Fixpoint leading_failures (fails : nat -> bool) (from budget : nat) : nat :=
  match budget with
  | O => O
  | S budget' =>
      if fails from
      then S (leading_failures fails (S from) budget')
      else O
  end.

(** An oracle whose first [n] draws are 1/10 and whose later draws are 9/10. *)
Definition low_then_high (n : nat) (i : nat) : Q :=
  if (i <? n)%nat then (1 # 10)%Q else (9 # 10)%Q.

(** * Properties *)

(** ** Numbers and timers within their exact ranges *)

Lemma max_safe_eq : max_safe = 9007199254740992.
Proof. reflexivity. Qed.

Lemma TIMEOUT_MAX_eq : TIMEOUT_MAX = 2147483647.
Proof. reflexivity. Qed.

(** Closes arithmetic goals that mention the two bounds. *)
Ltac bounds := rewrite ?max_safe_eq, ?TIMEOUT_MAX_eq in *; lia.

Lemma round_double_safe (z : Z) : Z.abs z <= max_safe -> round_double z = z.
Proof.
  intro H. unfold round_double.
  destruct (Z.leb_spec (Z.abs z) max_safe); [reflexivity | lia].
Qed.

Lemma js_mul_safe (a b : Z) : Z.abs (a * b) <= max_safe -> js_mul a b = a * b.
Proof. apply round_double_safe. Qed.

Lemma js_add_safe (a b : Z) : Z.abs (a + b) <= max_safe -> js_add a b = a + b.
Proof. apply round_double_safe. Qed.

Lemma number_to_string_safe (z : Z) :
  Z.abs z <= max_safe -> number_to_string z = string_of_Z z.
Proof.
  intro H. unfold number_to_string. rewrite (round_double_safe z H).
  destruct (Z.leb_spec (Z.abs z) max_safe); [reflexivity | lia].
Qed.

Lemma timer_delay_in_range (ms : Z) :
  1 <= ms <= TIMEOUT_MAX -> timer_delay ms = ms.
Proof.
  intros [H1 H2]. unfold timer_delay.
  destruct (Z.leb_spec 1 ms); [|lia].
  destruct (Z.leb_spec ms TIMEOUT_MAX); [reflexivity | lia].
Qed.

Lemma timer_delay_positive (ms : Z) : 1 <= timer_delay ms <= TIMEOUT_MAX.
Proof.
  unfold timer_delay.
  destruct (Z.leb_spec 1 ms); destruct (Z.leb_spec ms TIMEOUT_MAX);
    cbn [andb]; bounds.
Qed.

(** ** The retry controller *)

Lemma backoffs_seq (d : Z) (n s : nat) :
  backoffs d (Z.of_nat s) n = map (fun i => d * Z.of_nat i) (seq s n).
Proof.
  revert s; induction n as [|n IH]; intro s; simpl; [reflexivity|].
  f_equal. rewrite <- IH. f_equal. lia.
Qed.

Lemma backoffs_snoc (d a : Z) (n : nat) :
  backoffs d a (S n) = (backoffs d a n ++ [d * (a + Z.of_nat n)])%list.
Proof.
  revert a; induction n as [|n IH]; intro a.
  - simpl. now rewrite Z.add_0_r.
  - change (backoffs d a (S (S n)))
      with (d * a :: backoffs d (a + 1) (S n)).
    rewrite IH. simpl. do 3 f_equal. lia.
Qed.

Lemma sumZ_app (l1 l2 : list Z) : sumZ (l1 ++ l2)%list = sumZ l1 + sumZ l2.
Proof. induction l1 as [|x l1 IH]; simpl; [reflexivity | rewrite IH; lia]. Qed.

Lemma sumZ_backoffs (d : Z) (n : nat) :
  2 * sumZ (backoffs d 1 n) = d * (Z.of_nat n * (Z.of_nat n + 1)).
Proof.
  induction n as [|n IH]; [simpl; lia|].
  rewrite backoffs_snoc, sumZ_app. cbn [sumZ fold_right]. nia.
Qed.

Section RetryProperties.
Context {W A : Type}.
Variable await_fn : Z -> M W A.
Variable await_sleep : Z -> M W unit.
Variable log : list Arg -> M W unit.

(** What an observer of the environment sees: how often the operation
    factory has been invoked, and which waits have been served. *)
Variable calls : W -> nat.
Variable waits : W -> list Z.

Hypothesis fn_observed : forall a w,
  calls (snd (await_fn a w)) = S (calls w) /\
  waits (snd (await_fn a w)) = waits w.
Hypothesis sleep_observed : forall ms w,
  fst (await_sleep ms w) = Fulfilled tt /\
  calls (snd (await_sleep ms w)) = calls w /\
  waits (snd (await_sleep ms w)) = (waits w ++ [ms])%list.
Hypothesis log_observed : forall l w,
  fst (log l w) = Fulfilled tt /\
  calls (snd (log l w)) = calls w /\
  waits (snd (log l w)) = waits w.

Local Abbreviation loop := (Index.retry_loop await_fn await_sleep log).

(** The loop body, by the outcome of the attempt. *)
Lemma retry_loop_attempt_fulfilled (d : Z) (rem : nat) (a : Z) (e0 : Thrown)
    (v : A) (w : W) :
  fst (await_fn a w) = Fulfilled v ->
  loop d (S rem) a e0 w = await_fn a w.
Proof.
  intro Hf. cbn [Index.retry_loop]. unfold try_catch.
  destruct (await_fn a w) as [o wa]; simpl in Hf; subst o. reflexivity.
Qed.

Lemma retry_loop_attempt_rejected (d : Z) (rem : nat) (a : Z) (e0 : Thrown)
    (m : string) (w : W) :
  let line := [AStr ("attempt " ++ number_to_string a ++ " failed: " ++ m
                     ++ " | waiting " ++ number_to_string (js_mul d a)
                     ++ "ms")] in
  let w1 := snd (await_fn a w) in
  let w2 := snd (log line w1) in
  fst (await_fn a w) = Rejected (TError m) ->
  fst (log line w1) = Fulfilled tt ->
  fst (await_sleep (js_mul d a) w2) = Fulfilled tt ->
  loop d (S rem) a e0 w
  = loop d rem (js_add a 1) (TError m) (snd (await_sleep (js_mul d a) w2)).
Proof.
  intros line w1 w2 Hf Hl Hs. subst w2 w1.
  cbn [Index.retry_loop]. unfold try_catch.
  destruct (await_fn a w) as [o wa]. cbn [fst snd] in *. subst o.
  cbn [message_of]. unfold bind at 1. unfold ret at 1.
  unfold bind at 1. fold line.
  destruct (log line wa) as [ol wl]. cbn [fst snd] in *. subst ol.
  unfold bind at 1.
  destruct (await_sleep (js_mul d a) wl) as [os ws]. cbn [fst snd] in *.
  subst os. reflexivity.
Qed.


(** C10. With a retry count below 1 the loop body never runs: the factory
    is not invoked, nothing is waited for or logged (the state is
    untouched), and the controller throws [undefined]. *)
Theorem retry_below_one_throws_undefined (retries d : Z) (w : W) :
  retries < 1 ->
  Index.retry await_fn await_sleep log
    (Some (Index.mkRetryOptions (Some retries) (Some d))) w
  = (Rejected TUndefined, w).
Proof.
  intro Hr. unfold Index.retry. cbn [Index.retries Index.delayMs].
  replace (Z.to_nat retries) with O by lia. reflexivity.
Qed.

End RetryProperties.

(** *** Factories with a state of their own *)

Section RetryStateful.
Context {W A : Type}.
Variable await_fn : Z -> M W A.
Variable await_sleep : Z -> M W unit.
Variable log : list Arg -> M W unit.
Variable calls : W -> nat.
Variable waits : W -> list Z.

Hypothesis fn_observed : forall a w,
  calls (snd (await_fn a w)) = S (calls w) /\
  waits (snd (await_fn a w)) = waits w.
Hypothesis sleep_observed : forall ms w,
  fst (await_sleep ms w) = Fulfilled tt /\
  calls (snd (await_sleep ms w)) = calls w /\
  waits (snd (await_sleep ms w)) = (waits w ++ [ms])%list.
Hypothesis log_observed : forall l w,
  fst (log l w) = Fulfilled tt /\
  calls (snd (log l w)) = calls w /\
  waits (snd (log l w)) = waits w.

(** What the factory's outcome may depend on besides the number of
    invocations made: a property of the state that the factory, the waits
    and the console keep. *)
Variable inv : W -> Prop.
Hypothesis fn_keeps : forall a w, inv w -> inv (snd (await_fn a w)).
Hypothesis sleep_keeps : forall ms w, inv w -> inv (snd (await_sleep ms w)).
Hypothesis log_keeps : forall l w, inv w -> inv (snd (log l w)).

Local Abbreviation loop := (Index.retry_loop await_fn await_sleep log).

(** [n] failed attempts in a row, the [i]-th of them being the invocation
    with attempt number [a + i] made after [i] earlier invocations.  The
    attempt numbers and the waits stay within the exact range. *)
Lemma retry_loop_failed_run (d : Z) (n : nat) :
  forall (rem : nat) (a : Z) (e0 : Thrown) (w : W),
    inv w ->
    0 <= a -> a + Z.of_nat n <= max_safe ->
    (forall i, (i < n)%nat -> Z.abs (d * (a + Z.of_nat i)) <= max_safe) ->
    (forall i w', (i < n)%nat -> inv w' -> calls w' = (calls w + i)%nat ->
                  exists m, fst (await_fn (a + Z.of_nat i) w')
                            = Rejected (TError m)) ->
    exists w1 e1,
      loop d (n + rem) a e0 w = loop d rem (a + Z.of_nat n) e1 w1 /\
      inv w1 /\
      calls w1 = (calls w + n)%nat /\
      waits w1 = (waits w ++ backoffs d a n)%list /\
      match n with
      | O => e1 = e0 /\ w1 = w
      | S n' => exists wl, inv wl /\ calls wl = (calls w + n')%nat /\
                           fst (await_fn (a + Z.of_nat n') wl) = Rejected e1
      end.
Proof.
  induction n as [|n IH]; intros rem a e0 w Hinv Ha Hsafe Hmul Hfail.
  - exists w, e0. simpl. rewrite Z.add_0_r, Nat.add_0_r, app_nil_r.
    repeat split; auto.
  - destruct (Hfail O w ltac:(lia) Hinv ltac:(lia)) as [m Hm].
    rewrite Z.add_0_r in Hm.
    destruct (fn_observed a w) as [Hc Hw].
    set (line := [AStr ("attempt " ++ number_to_string a ++ " failed: " ++ m
                        ++ " | waiting " ++ number_to_string (js_mul d a)
                        ++ "ms")]).
    destruct (log_observed line (snd (await_fn a w))) as [Hl [Hlc Hlw]].
    destruct (sleep_observed (js_mul d a) (snd (log line (snd (await_fn a w)))))
      as [Hs [Hsc Hsw]].
    pose proof (retry_loop_attempt_rejected await_fn await_sleep log
                  d (n + rem) a e0 m w Hm Hl Hs) as Hstep.
    cbv zeta in Hstep. fold line in Hstep.
    set (w1 := snd (await_sleep (js_mul d a)
                      (snd (log line (snd (await_fn a w)))))) in *.
    assert (Hinv1 : inv w1)
      by (subst w1; apply sleep_keeps, log_keeps, fn_keeps, Hinv).
    assert (Hc1 : calls w1 = S (calls w)) by (subst w1; congruence).
    assert (Hw1 : waits w1 = (waits w ++ [d * a])%list).
    { subst w1. rewrite Hsw, Hlw, Hw. rewrite js_mul_safe; [reflexivity|].
      specialize (Hmul O ltac:(lia)). now rewrite Z.add_0_r in Hmul. }
    rewrite js_add_safe in Hstep by lia.
    destruct (IH rem (a + 1) (TError m) w1 Hinv1)
      as [w2 [e2 [Hrest [Hinv2 [Hc2 [Hw2 He2]]]]]].
    + lia.
    + lia.
    + intros i Hi. replace (a + 1 + Z.of_nat i) with (a + Z.of_nat (S i)) by lia.
      apply Hmul. lia.
    + intros i w' Hi Hinv' Hcw.
      replace (a + 1 + Z.of_nat i) with (a + Z.of_nat (S i)) by lia.
      apply Hfail; [lia | exact Hinv' | lia].
    + exists w2, e2. split; [|split; [|split; [|split]]].
      * change (S n + rem)%nat with (S (n + rem)). rewrite Hstep, Hrest.
        f_equal. lia.
      * exact Hinv2.
      * lia.
      * rewrite Hw2, Hw1, <- app_assoc. reflexivity.
      * destruct n as [|n'].
        -- destruct He2 as [-> ->]. exists w. split; [exact Hinv|].
           split; [lia|]. now rewrite Z.add_0_r.
        -- destruct He2 as [wl [Hinvl [Hcl Hel]]]. exists wl.
           split; [exact Hinvl|]. split; [lia|].
           replace (a + Z.of_nat (S n')) with (a + 1 + Z.of_nat n') by lia.
           exact Hel.
Qed.

(** C2. An operation whose invocations fail until the [k]-th succeeds, with
    [k <= retries].  The [i]-th invocation is the one made with attempt
    number [i] after [i - 1] earlier invocations, in a state that satisfies
    [inv]; so the factory may decide by the attempt number or, having no
    argument, by a state of its own (a counter, or the draws of the
    simulated operation).  The attempt numbers and the waits are within the
    exact range of numbers.  The factory is invoked exactly [k] times, the
    controller returns the value of the [k]-th invocation in the very state
    that invocation left behind (nothing is waited for after it), and the
    waits served before are [delayMs * 1, ..., delayMs * (k - 1)]. *)
Theorem retry_succeeds_on_attempt_k (k retries d : Z) (w : W) :
  inv w ->
  1 <= k <= retries ->
  k <= max_safe ->
  Z.abs d * (k - 1) <= max_safe ->
  (forall i w', 1 <= i < k -> inv w' ->
                calls w' = (calls w + Z.to_nat (i - 1))%nat ->
                exists m, fst (await_fn i w') = Rejected (TError m)) ->
  (forall w', inv w' -> calls w' = (calls w + Z.to_nat (k - 1))%nat ->
              exists v, fst (await_fn k w') = Fulfilled v) ->
  exists wk w' v,
    Index.retry await_fn await_sleep log
      (Some (Index.mkRetryOptions (Some retries) (Some d))) w
    = (Fulfilled v, w') /\
    calls wk = (calls w + Z.to_nat (k - 1))%nat /\
    await_fn k wk = (Fulfilled v, w') /\
    calls w' = (calls w + Z.to_nat k)%nat /\
    waits w' = (waits w ++ map (fun i => d * Z.of_nat i)
                             (seq 1 (Z.to_nat (k - 1))))%list.
Proof.
  intros Hinv Hk Hsafe Hmul Hfail Hok. unfold Index.retry.
  cbn [Index.retries Index.delayMs].
  set (n := Z.to_nat (k - 1)).
  assert (Hsplit : Z.to_nat retries = (n + S (Z.to_nat (retries - k)))%nat)
    by (subst n; lia).
  rewrite Hsplit.
  destruct (retry_loop_failed_run d n (S (Z.to_nat (retries - k)))
              1 TUndefined w Hinv) as [w1 [e1 [Hrun [Hinv1 [Hc [Hw _]]]]]].
  { lia. }
  { subst n. lia. }
  { intros i Hi. rewrite Z.abs_mul. rewrite (Z.abs_eq (1 + Z.of_nat i)) by lia.
    pose proof (Z.abs_nonneg d). subst n. nia. }
  { intros i w' Hi Hinv' Hcw. apply Hfail; subst n; [lia | exact Hinv' |].
    rewrite Hcw. f_equal. lia. }
  rewrite Hrun. replace (1 + Z.of_nat n) with k by (subst n; lia).
  destruct (fn_observed k w1) as [Hck Hwk].
  destruct (Hok w1 Hinv1 Hc) as [v Hv].
  destruct (await_fn k w1) as [o wk'] eqn:Ek. cbn [fst snd] in *. subst o.
  exists w1, wk', v. split; [|split; [|split; [|split]]].
  - cbn [Index.retry_loop]. unfold try_catch. rewrite Ek. reflexivity.
  - exact Hc.
  - exact Ek.
  - rewrite Hck, Hc. subst n. lia.
  - rewrite Hwk, Hw. f_equal. apply (backoffs_seq d n 1).
Qed.

End RetryStateful.

(** *** Factories that always fail *)

Section RetryAlwaysFailing.
Context {W A : Type}.
Variable await_fn : Z -> M W A.
Variable await_sleep : Z -> M W unit.
Variable log : list Arg -> M W unit.
Variable calls : W -> nat.
Variable waits : W -> list Z.

Hypothesis fn_observed : forall a w,
  calls (snd (await_fn a w)) = S (calls w) /\
  waits (snd (await_fn a w)) = waits w.
Hypothesis sleep_observed : forall ms w,
  fst (await_sleep ms w) = Fulfilled tt /\
  calls (snd (await_sleep ms w)) = calls w /\
  waits (snd (await_sleep ms w)) = (waits w ++ [ms])%list.
Hypothesis log_observed : forall l w,
  fst (log l w) = Fulfilled tt /\
  calls (snd (log l w)) = calls w /\
  waits (snd (log l w)) = waits w.

Local Abbreviation loop := (Index.retry_loop await_fn await_sleep log).

(** [n] failed attempts in a row of a factory whose error is a function of
    the attempt number. *)
Lemma retry_loop_failed_prefix (d : Z) (errOf : Z -> string) (n : nat) :
  forall (rem : nat) (a : Z) (e0 : Thrown) (w : W),
    0 <= a -> a + Z.of_nat n <= max_safe ->
    (forall i, (i < n)%nat -> Z.abs (d * (a + Z.of_nat i)) <= max_safe) ->
    (forall a' w', a <= a' < a + Z.of_nat n ->
                   fst (await_fn a' w') = Rejected (TError (errOf a'))) ->
    exists w1 e1,
      loop d (n + rem) a e0 w = loop d rem (a + Z.of_nat n) e1 w1 /\
      calls w1 = (calls w + n)%nat /\
      waits w1 = (waits w ++ backoffs d a n)%list /\
      e1 = match n with
           | O => e0
           | S n' => TError (errOf (a + Z.of_nat n'))
           end.
Proof.
  intros rem a e0 w Ha Hsafe Hmul Hfail.
  destruct (retry_loop_failed_run await_fn await_sleep log calls waits
              fn_observed sleep_observed log_observed (fun _ => True)
              (fun _ _ _ => I) (fun _ _ _ => I) (fun _ _ _ => I)
              d n rem a e0 w I Ha Hsafe Hmul)
    as [w1 [e1 [Hrun [_ [Hc [Hw He]]]]]].
  { intros i w' Hi _ _. eexists. apply Hfail. lia. }
  exists w1, e1. repeat split; try assumption.
  destruct n as [|n'].
  - now destruct He.
  - destruct He as [wl [_ [_ Hel]]]. rewrite Hfail in Hel by lia. congruence.
Qed.

(** An operation that fails on every attempt, within the exact range: the
    controller makes [retries] attempts, waits after each of them, the last
    one included, and rethrows the last error. *)
Lemma retry_always_failing (retries d : Z) (errOf : Z -> string) (w : W) :
  1 <= retries < max_safe ->
  Z.abs d * retries <= max_safe ->
  (forall a w', fst (await_fn a w') = Rejected (TError (errOf a))) ->
  exists w',
    Index.retry await_fn await_sleep log
      (Some (Index.mkRetryOptions (Some retries) (Some d))) w
    = (Rejected (TError (errOf retries)), w') /\
    calls w' = (calls w + Z.to_nat retries)%nat /\
    waits w' = (waits w ++ backoffs d 1 (Z.to_nat retries))%list.
Proof.
  intros Hr Hd Hfail. unfold Index.retry. cbn [Index.retries Index.delayMs].
  destruct (retry_loop_failed_prefix d errOf (Z.to_nat retries) 0 1 TUndefined w)
    as [w1 [e1 [Hrun [Hc [Hw He]]]]].
  { lia. }
  { lia. }
  { intros i Hi. rewrite Z.abs_mul. rewrite (Z.abs_eq (1 + Z.of_nat i)) by lia.
    pose proof (Z.abs_nonneg d). nia. }
  { intros; apply Hfail. }
  rewrite Nat.add_0_r in Hrun. exists w1. rewrite Hrun. split; [|auto].
  cbn [Index.retry_loop]. unfold throw. f_equal. rewrite He.
  destruct (Z.to_nat retries) as [|n'] eqn:En; [lia|].
  do 3 f_equal. lia.
Qed.

End RetryAlwaysFailing.

Lemma spy_fn_observed {A} (behaviour : Z -> Outcome A) (a : Z) (s : Spy) :
  spy_calls (snd (spy_fn behaviour a s)) = S (spy_calls s) /\
  spy_waits (snd (spy_fn behaviour a s)) = spy_waits s.
Proof. split; reflexivity. Qed.

Lemma spy_sleep_observed (ms : Z) (s : Spy) :
  fst (spy_sleep ms s) = Fulfilled tt /\
  spy_calls (snd (spy_sleep ms s)) = spy_calls s /\
  spy_waits (snd (spy_sleep ms s)) = (spy_waits s ++ [ms])%list.
Proof. repeat split. Qed.

Lemma spy_log_observed (l : list Arg) (s : Spy) :
  fst (spy_log l s) = Fulfilled tt /\
  spy_calls (snd (spy_log l s)) = spy_calls s /\
  spy_waits (snd (spy_log l s)) = spy_waits s.
Proof. repeat split. Qed.

Lemma retry_below_one_throws_undefined_witness :
  Index.retry (spy_fn (succeeds_from 1)) spy_sleep spy_log
    (Some (Index.mkRetryOptions (Some 0) (Some 200))) (mkSpy 0 [] [])
  = (Rejected TUndefined, mkSpy 0 [] []).
Proof.
  apply (retry_below_one_throws_undefined (spy_fn (succeeds_from 1)) spy_sleep
           spy_log 0 200 (mkSpy 0 [] [])).
  lia.
Defined.

(** The total wait of an operation that always fails, over [retries]
    attempts: [delayMs * (1 + 2 + ... + retries)]. *)
Lemma backoffs_total (d retries : Z) :
  1 <= retries ->
  2 * sumZ (backoffs d 1 (Z.to_nat retries)) = d * (retries * (retries + 1)).
Proof. intro H. rewrite sumZ_backoffs. rewrite Z2Nat.id by lia. reflexivity. Qed.

(** C1. A single-attempt policy ([retries = 1], [delayMs = 200]) around an
    operation of 100 ms that always fails: one attempt is made and its error
    is rethrown, but only after the controller has also served the backoff
    wait of 200 ms: the run ends at 300 ms, not at 100 ms. *)
Theorem retry_single_attempt_waits_before_failing :
  Index.retry
    (fun _ => p <- Index.fakeIO "op" 100 (Some 1%Q) ;; await p)
    Index.await_sleep console_log
    (Some (Index.mkRetryOptions (Some 1) (Some 200)))
    (mkState 0 0 (fun _ => (1 # 2)%Q) [])
  = (Rejected (TError "[op] failed (simulated)"),
     mkState 300 1 (fun _ => (1 # 2)%Q)
       [Log [AStr "attempt 1 failed: [op] failed (simulated) | waiting 200ms"]]).
Proof. vm_compute. reflexivity. Qed.

(** The same policy seen by the recording environment: the waits served are
    [[200]], whose sum is not [200 * (1 + ... + 0) = 0]. *)
Lemma retry_single_attempt_spied :
  Index.retry (spy_fn (succeeds_from 2)) spy_sleep spy_log
    (Some (Index.mkRetryOptions (Some 1) (Some 200))) (mkSpy 0 [] [])
  = (Rejected (TError "failure 1"),
     mkSpy 1 [200] [[AStr "attempt 1 failed: failure 1 | waiting 200ms"]]).
Proof. vm_compute. reflexivity. Qed.

(** ** The simulated operation *)

Lemma num_lt_iff (a b : Q) : num_lt a b = true <-> (a < b)%Q.
Proof.
  unfold num_lt. rewrite negb_true_iff. split.
  - intro H. apply Qnot_le_lt. intro Hle.
    apply Qle_bool_iff in Hle. congruence.
  - intro H. destruct (Qle_bool b a) eqn:E; [|reflexivity].
    apply Qle_bool_iff in E. exfalso. exact (Qlt_not_le _ _ H E).
Qed.

Lemma num_lt_zero (r : Q) : (0 <= r)%Q -> num_lt r 0 = false.
Proof.
  intro H. destruct (num_lt r 0) eqn:E; [|reflexivity].
  apply num_lt_iff in E. exfalso. exact (Qlt_not_le _ _ E H).
Qed.

Lemma num_lt_one (r : Q) : (r < 1)%Q -> num_lt r 1 = true.
Proof. intro H. now apply num_lt_iff. Qed.

(** The rate [0.65] of the retry scenario is written [65 # 100]: this
    fraction and the double the literal denotes separate no draw, a draw
    being a multiple of 2^-53. *)
Lemma literal_0_65_separates_no_draw (k : Z) :
  (k # 9007199254740992 < 65 # 100)%Q
  <-> (k # 9007199254740992 < double_0_65)%Q.
Proof. unfold Qlt, double_0_65. cbn [Qnum Qden]. lia. Qed.

(** What [fakeIO] returns, for a given comparison of the draw with the
    failure rate. *)
Lemma fakeIO_eq (nm : string) (ms : Z) (failRate : option Q) (st : State) :
  Index.fakeIO nm ms failRate st =
  (Fulfilled
     (mkPromise (now st + timer_delay ms)
        (if num_lt (random st (issued st))
              match failRate with Some f => f | None => 0%Q end
         then Rejected (TError ("[" ++ nm ++ "] failed (simulated)"))
         else Fulfilled (mkResult nm ms (now st + timer_delay ms)))),
   mkState (now st) (S (issued st)) (random st) (console st)).
Proof.
  unfold Index.fakeIO, Index.sleep, set_timeout, math_random, bind, ret.
  cbn [settleAt].
  destruct (num_lt (random st (issued st))
              match failRate with Some f => f | None => 0%Q end); reflexivity.
Qed.

(** The factory of the retry scenario, awaited. *)
Lemma await_fakeIO_eq (nm : string) (ms : Z) (failRate : option Q) (st : State) :
  (p <- Index.fakeIO nm ms failRate ;; await p) st =
  (if num_lt (random st (issued st))
        match failRate with Some f => f | None => 0%Q end
   then Rejected (TError ("[" ++ nm ++ "] failed (simulated)"))
   else Fulfilled (mkResult nm ms (now st + timer_delay ms)),
   mkState (Z.max (now st) (now st + timer_delay ms)) (S (issued st)) (random st)
     (console st)).
Proof. unfold bind. rewrite fakeIO_eq. reflexivity. Qed.

Lemma traced_operation_eq (nm : string) (ms : Z) (failRate : option Q)
    (w : State * list Z) :
  traced (p <- Index.fakeIO nm ms failRate ;; await p) w
  = (fst ((p <- Index.fakeIO nm ms failRate ;; await p) (fst w)),
     (mkState (Z.max (now (fst w)) (now (fst w) + timer_delay ms))
        (S (issued (fst w))) (random (fst w)) (console (fst w)),
      snd w)).
Proof. unfold traced. rewrite await_fakeIO_eq. reflexivity. Qed.

(** The factory of the retry scenario, which takes no argument and whose
    outcome is the draw of the operation it creates: with an oracle whose
    first two draws are below the rate, it fails twice and succeeds on the
    third invocation, under the scenario's policy of 4 attempts with a base
    delay of 150 ms. *)
Lemma retry_succeeds_on_attempt_k_witness :
  exists wk w' v,
    Index.retry
      (fun _ : Z =>
         traced (p <- Index.fakeIO "unstable" 150 (Some (65 # 100)%Q) ;; await p))
      traced_sleep (fun l => traced (console_log l))
      (Some (Index.mkRetryOptions (Some 4) (Some 150)))
      (mkState 0 0 (low_then_high 2) [], [])
    = (Fulfilled v, w') /\
    issued (fst wk) = (0 + Z.to_nat (3 - 1))%nat /\
    traced (p <- Index.fakeIO "unstable" 150 (Some (65 # 100)%Q) ;; await p) wk
    = (Fulfilled v, w') /\
    issued (fst w') = (0 + Z.to_nat 3)%nat /\
    snd w' = ([] ++ map (fun i => 150 * Z.of_nat i)
                      (seq 1 (Z.to_nat (3 - 1))))%list.
Proof.
  apply (retry_succeeds_on_attempt_k
           (fun _ : Z =>
              traced (p <- Index.fakeIO "unstable" 150 (Some (65 # 100)%Q) ;;
                      await p))
           traced_sleep (fun l => traced (console_log l))
           (fun w => issued (fst w)) (fun w => snd w)
           (fun a w => conj (f_equal (fun x => issued (fst (snd x)))
                               (traced_operation_eq "unstable" 150
                                  (Some (65 # 100)%Q) w))
                            (f_equal (fun x => snd (snd x))
                               (traced_operation_eq "unstable" 150
                                  (Some (65 # 100)%Q) w)))
           (fun ms w => conj eq_refl (conj eq_refl eq_refl))
           (fun l w => conj eq_refl (conj eq_refl eq_refl))
           (fun w => random (fst w) = low_then_high 2)
           (fun a w H => eq_trans
                           (f_equal (fun x => random (fst (snd x)))
                              (traced_operation_eq "unstable" 150
                                 (Some (65 # 100)%Q) w)) H)
           (fun ms w H => H) (fun l w H => H)
           3 4 150 (mkState 0 0 (low_then_high 2) [], [])).
  - reflexivity.
  - lia.
  - rewrite max_safe_eq. lia.
  - rewrite max_safe_eq. simpl. lia.
  - intros i w' Hi Hinv Hc. rewrite traced_operation_eq. cbn [fst].
    rewrite await_fakeIO_eq. cbn [fst] in *. rewrite Hinv, Hc.
    assert (Hi' : i = 1 \/ i = 2) by lia.
    destruct Hi' as [-> | ->]; eexists; reflexivity.
  - intros w' Hinv Hc. rewrite traced_operation_eq. cbn [fst].
    rewrite await_fakeIO_eq. cbn [fst] in *. rewrite Hinv, Hc.
    eexists. reflexivity.
Defined.

(** C5. With a draw in [[0, 1)]: the operation fails exactly when the draw is
    below the failure rate, and then with the message
    ["[<name>] failed (simulated)"], which contains the name; with rate 0
    (given or defaulted) it succeeds with the given name and
    [durationMs = ms]; with rate 1 it fails. *)
Theorem fakeIO_fails_iff_draw_below_rate (nm : string) (ms : Z) (st : State) :
  (0 <= random st (issued st) < 1)%Q ->
  (forall failRate : Q,
     exists p st',
       Index.fakeIO nm ms (Some failRate) st = (Fulfilled p, st') /\
       (is_rejected p = true <-> (random st (issued st) < failRate)%Q) /\
       (is_rejected p = true ->
        outcome p = Rejected (TError ("[" ++ nm ++ "] failed (simulated)"))) /\
       (is_rejected p = false ->
        exists r, outcome p = Fulfilled r /\ name r = nm /\ durationMs r = ms)) /\
  (forall failRate : option Q,
     failRate = None \/ failRate = Some 0%Q ->
     exists p st' r,
       Index.fakeIO nm ms failRate st = (Fulfilled p, st') /\
       outcome p = Fulfilled r /\ name r = nm /\ durationMs r = ms) /\
  (exists p st',
     Index.fakeIO nm ms (Some 1%Q) st = (Fulfilled p, st') /\
     outcome p = Rejected (TError ("[" ++ nm ++ "] failed (simulated)"))) /\
  (exists pre post, "[" ++ nm ++ "] failed (simulated)" = pre ++ nm ++ post).
Proof.
  intros [Hlo Hhi]. split; [|split; [|split]].
  - intro failRate. rewrite fakeIO_eq. eexists; eexists.
    split; [reflexivity|]. unfold is_rejected. cbn [outcome].
    destruct (num_lt (random st (issued st)) failRate) eqn:E.
    + split; [|split].
      * split; [intros _; now apply num_lt_iff | reflexivity].
      * reflexivity.
      * discriminate.
    + split; [|split].
      * split; [discriminate|]. intro H. apply num_lt_iff in H. congruence.
      * discriminate.
      * intros _. eexists. split; [reflexivity|]. split; reflexivity.
  - intros failRate Hrate. rewrite fakeIO_eq. eexists; eexists; eexists.
    split; [reflexivity|]. cbn [outcome].
    assert (E : num_lt (random st (issued st))
                  match failRate with Some f => f | None => 0%Q end = false)
      by (destruct Hrate; subst failRate; now apply num_lt_zero).
    rewrite E. split; [reflexivity|]. split; reflexivity.
  - rewrite fakeIO_eq. eexists; eexists. split; [reflexivity|].
    cbn [outcome]. now rewrite (num_lt_one _ Hhi).
  - exists "[", "] failed (simulated)". reflexivity.
Qed.

Lemma fakeIO_fails_iff_draw_below_rate_witness :
  (forall failRate : Q,
     exists p st',
       Index.fakeIO "S2" 250 (Some failRate)
         (mkState 0 0 (fun _ => (1 # 2)%Q) []) = (Fulfilled p, st') /\
       (is_rejected p = true <-> ((1 # 2) < failRate)%Q) /\
       (is_rejected p = true ->
        outcome p = Rejected (TError ("[" ++ "S2" ++ "] failed (simulated)"))) /\
       (is_rejected p = false ->
        exists r, outcome p = Fulfilled r /\ name r = "S2" /\ durationMs r = 250)) /\
  (forall failRate : option Q,
     failRate = None \/ failRate = Some 0%Q ->
     exists p st' r,
       Index.fakeIO "S2" 250 failRate
         (mkState 0 0 (fun _ => (1 # 2)%Q) []) = (Fulfilled p, st') /\
       outcome p = Fulfilled r /\ name r = "S2" /\ durationMs r = 250) /\
  (exists p st',
     Index.fakeIO "S2" 250 (Some 1%Q)
       (mkState 0 0 (fun _ => (1 # 2)%Q) []) = (Fulfilled p, st') /\
     outcome p = Rejected (TError ("[" ++ "S2" ++ "] failed (simulated)"))) /\
  (exists pre post, "[" ++ "S2" ++ "] failed (simulated)" = pre ++ "S2" ++ post).
Proof.
  apply (fakeIO_fails_iff_draw_below_rate "S2" 250
           (mkState 0 0 (fun _ => (1 # 2)%Q) [])).
  simpl. split; [discriminate | reflexivity].
Defined.

(** ** The timeout wrapper *)

(** What [withTimeout] returns: the timer when it fires before the promise
    is seen settled, the promise otherwise. *)
Lemma withTimeout_eq {A : Type} (promise : Promise A) (ms : Z) (st : State) :
  Index.withTimeout promise ms st =
  (Fulfilled
     (if now st + timer_delay ms <? Z.max (now st) (settleAt promise)
      then mkPromise (now st + timer_delay ms)
             (Rejected (TError ("timeout after " ++ number_to_string ms ++ "ms")))
      else mkPromise (Z.max (now st) (settleAt promise)) (outcome promise)),
   st).
Proof.
  pose proof (timer_delay_positive ms) as Hd.
  unfold Index.withTimeout, set_timeout, promise_race, first_settled, bind,
    seenAt.
  cbn [fold_left settleAt outcome].
  rewrite (Z.max_r (now st) (now st + timer_delay ms)) by lia.
  destruct (now st + timer_delay ms <? Z.max (now st) (settleAt promise));
    cbn [settleAt outcome].
  - rewrite (Z.max_r (now st) (now st + timer_delay ms)) by lia. reflexivity.
  - reflexivity.
Qed.

(** C3, as the code has it.  For a timeout [ms] between 1 and 2^31 - 1 the
    wrapper settles with whichever side settles first.  If the promise
    settles later than [ms] after the call, the wrapper rejects at [ms] with
    ["timeout after <ms>ms"]; if it settles earlier, the wrapper takes its
    outcome, fulfilled or rejected.  For a simulated operation of delay [d]
    started together with the wrapper: [ms < d <= 2^31 - 1] gives the
    timeout error, and [d < ms] gives exactly what awaiting the operation
    alone gives. *)
Theorem withTimeout_first_to_settle {A : Type} (promise : Promise A) (ms : Z)
    (st : State) :
  1 <= ms <= TIMEOUT_MAX ->
  (exists guarded,
     Index.withTimeout promise ms st = (Fulfilled guarded, st) /\
     (now st + ms < settleAt promise ->
      outcome guarded
      = Rejected (TError ("timeout after " ++ string_of_Z ms ++ "ms")) /\
      settleAt guarded = now st + ms) /\
     (settleAt promise < now st + ms ->
      outcome guarded = outcome promise /\
      settleAt guarded = Z.max (now st) (settleAt promise))) /\
  (forall (nm : string) (d : Z) (failRate : option Q),
     let guarded_run :=
       (operation <- Index.fakeIO nm d failRate ;;
        guarded <- Index.withTimeout operation ms ;;
        await guarded) in
     let plain_run :=
       (operation <- Index.fakeIO nm d failRate ;; await operation) in
     (ms < d <= TIMEOUT_MAX ->
      fst (guarded_run st)
      = Rejected (TError ("timeout after " ++ string_of_Z ms ++ "ms"))) /\
     (d < ms -> guarded_run st = plain_run st)).
Proof.
  intro Hms.
  assert (Hstr : number_to_string ms = string_of_Z ms)
    by (apply number_to_string_safe; bounds).
  assert (Hdelay : timer_delay ms = ms) by now apply timer_delay_in_range.
  split.
  - eexists. split; [apply withTimeout_eq|]. rewrite Hdelay, Hstr.
    split; intro H.
    + destruct (Z.ltb_spec (now st + ms) (Z.max (now st) (settleAt promise)));
        [split; reflexivity | lia].
    + destruct (Z.ltb_spec (now st + ms) (Z.max (now st) (settleAt promise)));
        [lia | split; reflexivity].
  - intros nm d failRate guarded_run plain_run.
    subst guarded_run plain_run. unfold bind at 1 3.
    rewrite fakeIO_eq. unfold bind. rewrite withTimeout_eq.
    cbn [now settleAt]. rewrite Hdelay, Hstr.
    pose proof (timer_delay_positive d) as Hd.
    split; intro H.
    + rewrite (timer_delay_in_range d) by lia.
      destruct (Z.ltb_spec (now st + ms) (Z.max (now st) (now st + d)));
        [reflexivity | lia].
    + assert (Hle : timer_delay d <= ms).
      { unfold timer_delay.
        destruct ((1 <=? d) && (d <=? TIMEOUT_MAX)); lia. }
      destruct (Z.ltb_spec (now st + ms)
                  (Z.max (now st) (now st + timer_delay d))); [lia|].
      unfold await. rewrite fakeIO_eq.
      cbn [settleAt outcome now issued random console].
      do 2 f_equal. lia.
Qed.

(** The timeout scenario's own numbers: 500 ms of work against 250 ms. *)
Lemma withTimeout_first_to_settle_witness :
  exists guarded,
    Index.withTimeout (mkPromise 500 (Fulfilled (mkResult "operation" 500 500)))
      250 (mkState 0 1 (fun _ => (1 # 2)%Q) [])
    = (Fulfilled guarded, mkState 0 1 (fun _ => (1 # 2)%Q) []) /\
    outcome guarded = Rejected (TError "timeout after 250ms") /\
    settleAt guarded = 250.
Proof.
  destruct (withTimeout_first_to_settle
              (mkPromise 500 (Fulfilled (mkResult "operation" 500 500))) 250
              (mkState 0 1 (fun _ => (1 # 2)%Q) []))
    as [[guarded [Hrun [Hlate _]]] _].
  - rewrite TIMEOUT_MAX_eq. lia.
  - exists guarded. split; [exact Hrun|]. apply Hlate. simpl. lia.
Defined.

(** Outside these bounds the order can be the opposite, as timers of less
    than 1 ms or more than 2^31 - 1 ms fire after 1 ms.  An operation of
    1 ms under a timeout of 0 ms: the delay exceeds the timeout, yet the
    wrapper fulfils with the operation's result.  An operation of 5 ms
    under a timeout of 2^31 ms: the delay is less than the timeout, yet the
    wrapper rejects with the timeout error. *)
Lemma withTimeout_clamped_timer_counterexample :
  (0 < 1 /\
   fst ((operation <- Index.fakeIO "op" 1 None ;;
         guarded <- Index.withTimeout operation 0 ;;
         await guarded) (mkState 0 0 (fun _ => (1 # 2)%Q) []))
   = Fulfilled (mkResult "op" 1 1)) /\
  (5 < 2147483648 /\
   fst ((operation <- Index.fakeIO "op" 5 None ;;
         guarded <- Index.withTimeout operation 2147483648 ;;
         await guarded) (mkState 0 0 (fun _ => (1 # 2)%Q) []))
   = Rejected (TError "timeout after 2147483648ms")).
Proof. split; (split; [lia | vm_compute; reflexivity]). Qed.

(** ** Scenarios *)

(** Symbolic execution of the scenarios: unfold the monad, replace each
    [fakeIO] by its value, and decide the draws against a zero rate. *)
Ltac step_io :=
  rewrite fakeIO_eq; rewrite ?timer_delay_in_range by bounds;
  cbn [now issued random console settleAt outcome fst snd].

Ltac zero_rate Hvalid :=
  rewrite num_lt_zero by apply Hvalid.

(** C8, as the code has it.  Two operations that cannot fail, with
    different delays [d1] and [d2] between 1 and 2^31 - 1 ms, raced: the race
    fulfils with the result of the one with the shorter delay.  In the race
    scenario "fast" (120 ms) beats "slow" (400 ms). *)
Theorem race_shorter_delay_wins (n1 n2 : string) (d1 d2 : Z) (st : State) :
  valid_oracle (random st) ->
  1 <= d1 <= TIMEOUT_MAX -> 1 <= d2 <= TIMEOUT_MAX -> d1 <> d2 ->
  fst ((first <- Index.fakeIO n1 d1 None ;;
        second <- Index.fakeIO n2 d2 (Some 0%Q) ;;
        race <- promise_race first [second] ;;
        await race) st)
  = Fulfilled (if d1 <? d2
               then mkResult n1 d1 (now st + d1)
               else mkResult n2 d2 (now st + d2)) /\
  exists st',
    Index.demoRace st = (Fulfilled tt, st') /\
    console st'
    = (console st
       ++ [Log [AStr (nl ++ "=== 5) Promise.race (first to finish) ===")];
           Log [AStr "winner:"; AStr "fast"]])%list.
Proof.
  intros Hv H1 H2 Hne. split.
  - unfold bind at 1. step_io. zero_rate Hv.
    unfold bind at 1. step_io. zero_rate Hv.
    unfold bind, promise_race, first_settled, seenAt, await.
    cbn [fold_left settleAt outcome fst now].
    rewrite !Z.max_r by lia.
    destruct (Z.ltb_spec (now st + d2) (now st + d1));
      destruct (Z.ltb_spec d1 d2); try lia; reflexivity.
  - unfold Index.demoRace, console_log. unfold bind at 1.
    unfold bind at 1. step_io. zero_rate Hv.
    unfold bind at 1. step_io. zero_rate Hv.
    unfold bind, promise_race, first_settled, seenAt, await.
    cbn [fold_left settleAt outcome fst now].
    destruct (Z.ltb_spec (Z.max (now st) (now st + 120))
                         (Z.max (now st) (now st + 400))) as [_|Hge];
      [|lia].
    cbn [outcome name issued random console now].
    eexists. split; [reflexivity|]. cbn [console].
    rewrite <- app_assoc. reflexivity.
Qed.

Lemma race_shorter_delay_wins_witness :
  fst ((first <- Index.fakeIO "slow" 400 None ;;
        second <- Index.fakeIO "fast" 120 (Some 0%Q) ;;
        race <- promise_race first [second] ;;
        await race) (mkState 1000 0 (fun _ => (1 # 2)%Q) []))
  = Fulfilled (if 400 <? 120
               then mkResult "slow" 400 (1000 + 400)
               else mkResult "fast" 120 (1000 + 120)) /\
  exists st',
    Index.demoRace (mkState 1000 0 (fun _ => (1 # 2)%Q) []) = (Fulfilled tt, st') /\
    console st'
    = ([] ++ [Log [AStr (nl ++ "=== 5) Promise.race (first to finish) ===")];
              Log [AStr "winner:"; AStr "fast"]])%list.
Proof.
  apply (race_shorter_delay_wins "slow" "fast" 400 120
           (mkState 1000 0 (fun _ => (1 # 2)%Q) [])).
  - intro i. simpl. split; [discriminate | reflexivity].
  - rewrite TIMEOUT_MAX_eq. lia.
  - rewrite TIMEOUT_MAX_eq. lia.
  - lia.
Defined.

(** Outside these bounds the shorter delay need not win.  An operation of
    1 ms raced against an operation of 0 ms, created in this order: both
    settle after 1 ms, and the race takes the first.  An operation of
    2^31 ms raced against one of 5 ms: the first settles after 1 ms and
    wins. *)
Lemma race_clamped_delay_counterexample :
  (0 < 1 /\
   fst ((first <- Index.fakeIO "a" 1 None ;;
         second <- Index.fakeIO "b" 0 (Some 0%Q) ;;
         race <- promise_race first [second] ;;
         await race) (mkState 0 0 (fun _ => (1 # 2)%Q) []))
   = Fulfilled (mkResult "a" 1 1)) /\
  (5 < 2147483648 /\
   fst ((first <- Index.fakeIO "a" 2147483648 None ;;
         second <- Index.fakeIO "b" 5 (Some 0%Q) ;;
         race <- promise_race first [second] ;;
         await race) (mkState 0 0 (fun _ => (1 # 2)%Q) []))
   = Fulfilled (mkResult "a" 2147483648 1)).
Proof. split; (split; [lia | vm_compute; reflexivity]). Qed.

(** *** [Promise.allSettled] fills its array by index *)

Section AllSettled.
Context {A : Type}.
Variable t : Z.

Local Abbreviation fill :=
  (fun (values : list (option (Settled A))) (x : nat * Promise A) =>
     store (fst x) (settled_of (snd x)) values).
Local Abbreviation see :=
  (fun (_ : Z) (x : nat * Promise A) => seenAt t (snd x)).

Lemma store_comm {B : Type} (i j : nat) (v w : B) (l : list (option B)) :
  i <> j -> store i v (store j w l) = store j w (store i v l).
Proof.
  revert i j; induction l as [|x l IH]; intros [|i] [|j] H; cbn [store];
    try reflexivity; try congruence.
  f_equal. apply IH. congruence.
Qed.

Lemma store_app {B : Type} (pre rest : list (option B)) (v : B) :
  store (List.length pre) v (pre ++ None :: rest) = (pre ++ Some v :: rest)%list.
Proof. induction pre as [|x pre IH]; cbn; [reflexivity | now rewrite IH]. Qed.

Lemma in_insert_settled (x y : nat * Promise A) (l : list (nat * Promise A)) :
  In y (insert_settled t x l) -> y = x \/ In y l.
Proof.
  induction l as [|z l IH]; cbn [insert_settled].
  - intros [H | []]. now left.
  - destruct (seenAt t (snd x) <=? seenAt t (snd z)).
    + intros [H | H]; [now left | now right].
    + intros [H | H]; [right; now left|].
      destruct (IH H); [now left | right; now right].
Qed.

Lemma settle_order_indices (ps : list (Promise A)) :
  forall (i : nat) (y : nat * Promise A),
    In y (settle_order t i ps) -> (i <= fst y)%nat.
Proof.
  induction ps as [|p ps IH]; intros i y H; cbn [settle_order] in H.
  - destruct H.
  - destruct (in_insert_settled _ _ _ H) as [-> | Hin]; [cbn; lia|].
    specialize (IH (S i) y Hin). lia.
Qed.

(** Filling the slots in settling order or in array order is the same, as
    the indices differ. *)
Lemma fill_insert_settled (x : nat * Promise A) (l : list (nat * Promise A)) :
  (forall y, In y l -> fst y <> fst x) ->
  forall values,
    fold_left fill (insert_settled t x l) values
    = fold_left fill (x :: l) values.
Proof.
  induction l as [|z l IH]; intros Hne values; cbn [insert_settled];
    [reflexivity|].
  destruct (seenAt t (snd x) <=? seenAt t (snd z)); [reflexivity|].
  cbn [fold_left]. rewrite IH by (intros y Hy; apply Hne; now right).
  cbn [fold_left]. f_equal. apply store_comm.
  intro E. apply (Hne z (or_introl eq_refl)). now symmetry.
Qed.

Lemma fill_settle_order (ps : list (Promise A)) :
  forall (pre : list (option (Settled A))),
    fold_left fill (settle_order t (List.length pre) ps)
      (pre ++ repeat None (List.length ps))%list
    = (pre ++ map (fun p => Some (settled_of p)) ps)%list.
Proof.
  induction ps as [|p ps IH]; intro pre; cbn [settle_order map List.length repeat].
  - reflexivity.
  - rewrite fill_insert_settled.
    + cbn [fold_left fst snd]. rewrite store_app.
      replace (pre ++ Some (settled_of p) :: repeat None (List.length ps))%list
        with ((pre ++ [Some (settled_of p)]) ++ repeat None (List.length ps))%list
        by now rewrite <- app_assoc.
      replace (S (List.length pre))
        with (List.length (pre ++ [Some (settled_of p)]))
        by (rewrite length_app; cbn; lia).
      rewrite IH, <- app_assoc. reflexivity.
    + intros y Hy. apply settle_order_indices in Hy. cbn. lia.
Qed.

Lemma filled_map_some (ps : list (Promise A)) :
  filled (map (fun p => Some (settled_of p)) ps) = map settled_of ps.
Proof. induction ps as [|p ps IH]; cbn; [reflexivity | now rewrite IH]. Qed.

(** The last input to settle is the latest one. *)
Lemma see_insert_settled (x : nat * Promise A) (l : list (nat * Promise A)) :
  forall m : Z,
    (forall y, In y l -> seenAt t (snd y) <= fold_left see l m) ->
    m <= seenAt t (snd x) ->
    fold_left see (insert_settled t x l) m
    = Z.max (seenAt t (snd x)) (fold_left see l m) /\
    (forall y, In y (insert_settled t x l) ->
               seenAt t (snd y) <= fold_left see (insert_settled t x l) m).
Proof.
  induction l as [|z l IH]; intros m Hub Hm; cbn [insert_settled].
  - cbn [fold_left]. split; [lia|]. intros y [<- | []]. lia.
  - destruct (Z.leb_spec (seenAt t (snd x)) (seenAt t (snd z))) as [Hle | Hgt].
    + cbn [fold_left] in *. pose proof (Hub z (or_introl eq_refl)) as Hz.
      split; [lia|]. intros y [<- | Hy]; [lia | now apply Hub].
    + cbn [fold_left] in *.
      destruct (IH (seenAt t (snd z))) as [Heq Hub'].
      * intros y Hy. apply Hub. now right.
      * lia.
      * split; [exact Heq|]. intros y [<- | Hy]; [|now apply Hub'].
        rewrite Heq. lia.
Qed.

Lemma see_settle_order (ps : list (Promise A)) :
  forall i : nat,
    fold_left see (settle_order t i ps) t
    = fold_right (fun p m => Z.max (seenAt t p) m) t ps /\
    (forall y, In y (settle_order t i ps) ->
               seenAt t (snd y) <= fold_left see (settle_order t i ps) t).
Proof.
  induction ps as [|p ps IH]; intro i; cbn [settle_order fold_right].
  - split; [reflexivity | intros y []].
  - destruct (IH (S i)) as [Heq Hub].
    destruct (see_insert_settled (i, p) (settle_order t (S i) ps) t Hub)
      as [Heq' Hub'].
    + unfold seenAt. cbn. lia.
    + split; [|exact Hub']. rewrite Heq', Heq. reflexivity.
Qed.

Lemma last_settled_fold_right (ps : list (Promise A)) :
  last_settled t ps = fold_right (fun p m => Z.max (seenAt t p) m) t ps.
Proof.
  unfold last_settled.
  assert (H : forall m, t <= m ->
            fold_left (fun m q => Z.max m (settleAt q)) ps m
            = Z.max m (fold_right (fun p m => Z.max (seenAt t p) m) t ps)).
  { induction ps as [|p ps IH]; intros m Hm; cbn [fold_left fold_right].
    - lia.
    - rewrite IH by lia. unfold seenAt. lia. }
  rewrite H by lia.
  assert (Hge : t <= fold_right (fun p m => Z.max (seenAt t p) m) t ps)
    by (clear H; induction ps; cbn; lia).
  lia.
Qed.

End AllSettled.

(** [Promise.allSettled] fulfils, when the latest input has settled, with the
    outcomes in array order. *)
Lemma promise_allSettled_eq {A : Type} (ps : list (Promise A)) (st : State) :
  promise_allSettled ps st
  = (Fulfilled
       (mkPromise (last_settled (now st) ps) (Fulfilled (map settled_of ps))),
     st).
Proof.
  unfold promise_allSettled. cbv zeta.
  pose proof (fill_settle_order (now st) ps []) as Hfill.
  cbn [app List.length] in Hfill. rewrite Hfill.
  rewrite filled_map_some.
  destruct (see_settle_order (now st) ps O) as [-> _].
  rewrite <- last_settled_fold_right. reflexivity.
Qed.

Lemma nth_error_map_settled {A : Type} (tasks : list (Promise A)) (i : nat)
    (p : Promise A) :
  nth_error tasks i = Some p ->
  nth_error (map settled_of tasks) i = Some (settled_of p).
Proof.
  revert i; induction tasks as [|q tasks IH]; intros [|i] H; simpl in *;
    try discriminate.
  - congruence.
  - now apply IH.
Qed.

(** C4. [Promise.allSettled] over any promises, whatever their outcomes and
    the order in which they settle and fill their slots: it never rejects,
    and awaiting it gives one entry per promise, in input order, tagged
    fulfilled (with the value) exactly for the fulfilled promises and
    rejected (with the reason) for the others.  The settle-all scenario therefore always completes and
    prints one line per operation in the order S1, S2, S3, each telling
    whether that operation's draw was below its failure rate. *)
Theorem allSettled_one_entry_per_task_in_order :
  (forall (A : Type) (tasks : list (Promise A)) (st : State),
     exists all settled st',
       promise_allSettled tasks st = (Fulfilled all, st) /\
       await all st = (Fulfilled settled, st') /\
       List.length settled = List.length tasks /\
       forall (i : nat) (p : Promise A),
         nth_error tasks i = Some p ->
         (forall v, outcome p = Fulfilled v <->
                    nth_error settled i = Some (SFulfilled v)) /\
         (forall e, outcome p = Rejected e <->
                    nth_error settled i = Some (SRejected e))) /\
  (forall st : State,
     exists st',
       Index.demoAllSettled st = (Fulfilled tt, st') /\
       console st'
       = (console st
          ++ [Log [AStr (nl ++ "=== 4) Promise.allSettled (success + failure) ===")];
              settled_line "S1" (num_lt (random st (issued st)) 0);
              settled_line "S2" (num_lt (random st (S (issued st))) double_0_7);
              settled_line "S3" (num_lt (random st (S (S (issued st)))) double_0_2)])%list).
Proof.
  split.
  - intros A tasks st. rewrite promise_allSettled_eq.
    unfold await. cbn [outcome settleAt].
    eexists; eexists; eexists. split; [reflexivity|]. split; [reflexivity|].
    split; [apply length_map|].
    intros i p Hp. rewrite (nth_error_map_settled tasks i p Hp).
    unfold settled_of. destruct (outcome p) as [v0|e0]; split; intros x;
      split; intro H; congruence.
  - intro st. unfold Index.demoAllSettled, console_log. unfold bind at 1.
    unfold bind at 1. step_io. unfold bind at 1. step_io.
    unfold bind at 1. step_io.
    unfold bind at 1. rewrite promise_allSettled_eq.
    unfold bind at 1. unfold await at 1. cbn [outcome map].
    unfold settled_of, settled_line. cbn [outcome].
    destruct (num_lt (random st (issued st)) 0);
      destruct (num_lt (random st (S (issued st))) double_0_7);
      destruct (num_lt (random st (S (S (issued st)))) double_0_2);
      cbn; (eexists; split; [reflexivity|]); cbn [console];
      rewrite <- !app_assoc; reflexivity.
Qed.

(** C6. The chain scenario never fails.  It returns
    ["final result from promise chain"] when both steps succeed and
    ["chain recovered with fallback"] when step 1 fails or, step 1 having
    succeeded, step 2 fails (a step fails when its draw is below its rate,
    which is 0 here); the last line it prints is in every case the one of
    the finalization step.  With draws in [[0, 1)] both steps succeed. *)
Theorem chain_recovers_and_always_finalizes (st : State) :
  let fails1 := num_lt (random st (issued st)) 0 in
  let fails2 := num_lt (random st (S (issued st))) 0 in
  (exists st' before,
     Index.demoPromiseChain st
     = (Fulfilled (if fails1 || fails2
                   then "chain recovered with fallback"
                   else "final result from promise chain"), st') /\
     console st' = (before ++ [Log [AStr "finally: always executed"]])%list) /\
  (valid_oracle (random st) ->
   fst (Index.demoPromiseChain st) = Fulfilled "final result from promise chain").
Proof.
  intros fails1 fails2.
  assert (Hrun : exists st' before,
     Index.demoPromiseChain st
     = (Fulfilled (if fails1 || fails2
                   then "chain recovered with fallback"
                   else "final result from promise chain"), st') /\
     console st' = (before ++ [Log [AStr "finally: always executed"]])%list).
  { subst fails1 fails2.
    unfold Index.demoPromiseChain, console_log, console_error, finally,
      try_catch.
    unfold bind at 1. unfold bind at 1. unfold bind at 1. unfold bind at 1.
    step_io. unfold await at 1. cbn [outcome settleAt].
    destruct (num_lt (random st (issued st)) 0).
    - cbn. eexists; eexists. split; reflexivity.
    - cbn [orb]. unfold bind at 1. unfold bind at 1. step_io.
      unfold await at 1. cbn [outcome settleAt].
      destruct (num_lt (random st (S (issued st))) 0);
        cbn; eexists; eexists; split; reflexivity. }
  split; [exact Hrun|].
  intro Hv. destruct Hrun as [st' [before [Hrun _]]]. rewrite Hrun.
  subst fails1 fails2. now rewrite !num_lt_zero by apply Hv.
Qed.

(** ** The runner *)

Lemma stretch_refl (st : State) : stretch [] st st.
Proof. split; [reflexivity | now rewrite app_nil_r]. Qed.

Lemma stretch_trans (b1 b2 : list Line) (st st1 st2 : State) :
  stretch b1 st st1 -> stretch b2 st1 st2 -> stretch (b1 ++ b2) st st2.
Proof.
  intros [Hr1 Hb1] [Hr2 Hb2]. split; [congruence|].
  rewrite Hb2, Hb1, app_assoc. reflexivity.
Qed.

Lemma completes_ret {A : Type} (a : A) : completes (ret a) [].
Proof. intros st _. exists a, st. split; [reflexivity | apply stretch_refl]. Qed.

Lemma completes_bind {A B : Type} (c : M State A) (k : A -> M State B)
    (b1 b2 : list Line) :
  completes c b1 -> (forall a, completes (k a) b2) ->
  completes (bind c k) (b1 ++ b2).
Proof.
  intros Hc Hk st Hv. destruct (Hc st Hv) as [a [st1 [Ec S1]]].
  assert (Hv1 : valid_oracle (random st1)) by (destruct S1 as [-> _]; exact Hv).
  destruct (Hk a st1 Hv1) as [b [st2 [Ek S2]]].
  exists b, st2. split.
  - unfold bind. rewrite Ec. exact Ek.
  - exact (stretch_trans _ _ _ _ _ S1 S2).
Qed.

Lemma completes_console_log (args : list Arg) :
  completes (console_log args) (banners [Log args]).
Proof.
  intros st _. exists tt. eexists. split; [reflexivity|].
  split; [reflexivity|]. cbn [console]. apply filter_app.
Qed.

(** Closes [stretch bs st st'] once [st'] is an explicit state over [st]. *)
Ltac close_stretch :=
  split;
  [ reflexivity
  | cbn [console]; rewrite <- ?app_assoc; cbn [app]; unfold banners;
    rewrite filter_app; reflexivity ].

Lemma demoPromiseChain_completes :
  completes Index.demoPromiseChain
    [Log [AStr (nl ++ "=== 1) Promise chain (then / catch / finally) ===")]].
Proof.
  intros st Hv.
  unfold Index.demoPromiseChain, console_log, console_error, finally, try_catch.
  unfold bind at 1. unfold bind at 1. unfold bind at 1. unfold bind at 1.
  step_io. zero_rate Hv. unfold await at 1. cbn [outcome settleAt].
  unfold bind at 1. unfold bind at 1. unfold bind at 1. step_io. zero_rate Hv.
  unfold await at 1. cbn [outcome settleAt now issued random console].
  unfold bind, ret. cbn [now issued random console].
  eexists; eexists. split; [reflexivity | close_stretch].
Qed.

Lemma demoAsyncAwait_completes :
  completes Index.demoAsyncAwait
    [Log [AStr (nl ++ "=== 2) async / await (try / catch) ===")]].
Proof.
  intros st Hv.
  unfold Index.demoAsyncAwait, console_log, console_error, try_catch.
  unfold bind at 1. unfold bind at 1. unfold bind at 1.
  step_io. zero_rate Hv. unfold await at 1. cbn [outcome settleAt].
  unfold bind at 1. unfold bind at 1. unfold bind at 1. step_io. zero_rate Hv.
  unfold await at 1. cbn [outcome settleAt now issued random console].
  unfold bind, ret. cbn [now issued random console].
  eexists; eexists. split; [reflexivity | close_stretch].
Qed.

Lemma demoParallelAll_completes :
  completes Index.demoParallelAll
    [Log [AStr (nl ++ "=== 3) Parallel execution with Promise.all ===")]].
Proof.
  intros st Hv.
  unfold Index.demoParallelAll, console_log, date_now.
  unfold bind at 1. unfold bind at 1.
  unfold bind at 1. step_io. zero_rate Hv.
  unfold bind at 1. step_io. zero_rate Hv.
  unfold bind at 1. step_io. zero_rate Hv.
  unfold bind, promise_all, await.
  cbn [filter is_rejected outcome settleAt fulfilled_values map name
       now issued random console].
  eexists; eexists. split; [reflexivity | close_stretch].
Qed.

Lemma demoAllSettled_completes :
  completes Index.demoAllSettled
    [Log [AStr (nl ++ "=== 4) Promise.allSettled (success + failure) ===")]].
Proof.
  intros st _.
  unfold Index.demoAllSettled, console_log. unfold bind at 1.
  unfold bind at 1. step_io. unfold bind at 1. step_io.
  unfold bind at 1. step_io.
  unfold bind at 1. rewrite promise_allSettled_eq.
  unfold bind at 1. unfold await at 1. cbn [outcome map].
  unfold settled_of. cbn [outcome].
  destruct (num_lt (random st (issued st)) 0);
    destruct (num_lt (random st (S (issued st))) double_0_7);
    destruct (num_lt (random st (S (S (issued st)))) double_0_2);
    cbn [for_of message_of name]; unfold bind, ret;
    cbn [now issued random console];
    (eexists; eexists; split; [reflexivity | close_stretch]).
Qed.

Lemma demoRace_completes :
  completes Index.demoRace
    [Log [AStr (nl ++ "=== 5) Promise.race (first to finish) ===")]].
Proof.
  intros st Hv.
  unfold Index.demoRace, console_log. unfold bind at 1.
  unfold bind at 1. step_io. zero_rate Hv.
  unfold bind at 1. step_io. zero_rate Hv.
  unfold bind, promise_race, first_settled, seenAt, await.
  cbn [fold_left settleAt outcome fst now].
  destruct (Z.max (now st) (now st + 120)
            <? Z.max (now st) (now st + 400));
    cbn [outcome name issued random console now];
    (eexists; eexists; split; [reflexivity | close_stretch]).
Qed.

Lemma demoTimeout_completes :
  completes Index.demoTimeout
    [Log [AStr (nl ++ "=== 6) Timeout (Promise.race + timer) ===")]].
Proof.
  intros st Hv.
  unfold Index.demoTimeout, Index.withTimeout, console_log, console_error,
    try_catch, set_timeout.
  unfold bind at 1. unfold bind at 1. step_io. zero_rate Hv.
  unfold bind, promise_race, first_settled, seenAt, await.
  cbn [fold_left settleAt outcome fst now].
  destruct (Z.max (now st) (now st + 250)
            <? Z.max (now st) (now st + 500));
    cbn [outcome message_of issued random console now settleAt]; unfold ret;
    (eexists; eexists; split; [reflexivity | close_stretch]).
Qed.




Lemma completes_eq {A : Type} (c : M State A) (bs bs' : list Line) :
  bs = bs' -> completes c bs -> completes c bs'.
Proof. intros <-. exact (fun H => H). Qed.

Lemma completes_plain_log (args : list Arg) :
  is_banner (Log args) = false -> completes (console_log args) [].
Proof.
  intro H. eapply completes_eq; [|apply completes_console_log].
  unfold banners. cbn [filter]. now rewrite H.
Qed.




(** ** The two source files *)

(** C9. Every function that both files define is the same function in both:
    on the same arguments and from the same state (clock, oracle, console)
    the two definitions give the same outcome and the same final state. *)
Theorem shared_functions_agree :
  (forall ms st, Index.sleep ms st = Part000.sleep ms st) /\
  (forall nm ms failRate st,
     Index.fakeIO nm ms failRate st = Part000.fakeIO nm ms failRate st) /\
  (forall (A : Type) (promise : Promise A) ms st,
     Index.withTimeout promise ms st = Part000.withTimeout promise ms st) /\
  (forall st, Index.demoPromiseChain st = Part000.demoPromiseChain st) /\
  (forall st, Index.demoAsyncAwait st = Part000.demoAsyncAwait st) /\
  (forall st, Index.demoParallelAll st = Part000.demoParallelAll st) /\
  (forall st, Index.demoAllSettled st = Part000.demoAllSettled st) /\
  (forall st, Index.demoRace st = Part000.demoRace st) /\
  (forall st, Index.demoTimeout st = Part000.demoTimeout st).
Proof. repeat split. Qed.


(** * Further properties *)

(** ** The retry controller, for any operation factory *)

Section RetryBudget.
Context {W A : Type}.
Variable await_fn : Z -> M W A.
Variable await_sleep : Z -> M W unit.
Variable log : list Arg -> M W unit.
Variable calls : W -> nat.
Variable waits : W -> list Z.

Hypothesis fn_observed : forall a w,
  calls (snd (await_fn a w)) = S (calls w) /\
  waits (snd (await_fn a w)) = waits w.
Hypothesis sleep_observed : forall ms w,
  fst (await_sleep ms w) = Fulfilled tt /\
  calls (snd (await_sleep ms w)) = calls w /\
  waits (snd (await_sleep ms w)) = (waits w ++ [ms])%list.
Hypothesis log_observed : forall l w,
  fst (log l w) = Fulfilled tt /\
  calls (snd (log l w)) = calls w /\
  waits (snd (log l w)) = waits w.

Local Abbreviation loop := (Index.retry_loop await_fn await_sleep log).

(** A rejection that is not an [Error] object: building the console line
    throws, so the loop ends in the state the attempt left behind. *)
Lemma retry_loop_attempt_undefined (d : Z) (rem : nat) (a : Z) (e0 : Thrown)
    (w : W) :
  fst (await_fn a w) = Rejected TUndefined ->
  exists m, loop d (S rem) a e0 w = (Rejected (TError m), snd (await_fn a w)).
Proof.
  intro Hf. cbn [Index.retry_loop]. unfold try_catch.
  destruct (await_fn a w) as [o wa]. cbn [fst snd] in *. subst o.
  cbn [message_of]. unfold bind, throw. eexists. reflexivity.
Qed.



(** X1. An operation that fails with an [Error] on every attempt, under a
    policy with [1 <= retries < 2^53] and waits up to 2^53: the factory is
    invoked exactly [retries] times, the error of the last attempt is
    rethrown, and a wait follows every failed attempt, the last one too: the
    waits are [delayMs * 1, ..., delayMs * retries], in total
    [delayMs * retries * (retries + 1) / 2]. *)
Theorem retry_exhausted_waits_after_every_attempt
    (retries d : Z) (errOf : Z -> string) (w : W) :
  1 <= retries < max_safe ->
  Z.abs d * retries <= max_safe ->
  (forall a w', fst (await_fn a w') = Rejected (TError (errOf a))) ->
  exists w',
    Index.retry await_fn await_sleep log
      (Some (Index.mkRetryOptions (Some retries) (Some d))) w
    = (Rejected (TError (errOf retries)), w') /\
    calls w' = (calls w + Z.to_nat retries)%nat /\
    waits w' = (waits w ++ map (fun i => d * Z.of_nat i)
                             (seq 1 (Z.to_nat retries)))%list /\
    2 * (sumZ (waits w') - sumZ (waits w)) = d * (retries * (retries + 1)).
Proof.
  intros Hr Hd Hfail.
  destruct (retry_always_failing await_fn await_sleep log calls waits
              fn_observed sleep_observed log_observed retries d errOf w
              Hr Hd Hfail)
    as [w' [Hrun [Hc Hw]]].
  exists w'. split; [exact Hrun|]. split; [exact Hc|]. split.
  - rewrite Hw. f_equal. apply (backoffs_seq d (Z.to_nat retries) 1).
  - rewrite Hw, sumZ_app. rewrite <- (backoffs_total d retries) by lia. lia.
Qed.

(** X3. When the first attempt rejects with [undefined] rather than with an
    [Error], the controller does not retry: reading [error.message] throws
    inside the handler, so the controller rejects with that error in the
    state the first attempt left, without a wait or a console line. *)
Theorem retry_stops_on_rejection_without_message (retries d : Z) (w : W) :
  1 <= retries ->
  fst (await_fn 1 w) = Rejected TUndefined ->
  exists m,
    Index.retry await_fn await_sleep log
      (Some (Index.mkRetryOptions (Some retries) (Some d))) w
    = (Rejected (TError m), snd (await_fn 1 w)).
Proof.
  intros Hr Hf. unfold Index.retry. cbn [Index.retries Index.delayMs].
  destruct (Z.to_nat retries) as [|n] eqn:En; [lia|].
  exact (retry_loop_attempt_undefined d n 1 TUndefined w Hf).
Qed.

(** X4. Without options, or with options that name neither field, the policy
    is three attempts with a base delay of 200 ms: an operation that always
    fails is invoked three times, with the waits 200, 400 and 600 ms. *)
Theorem retry_default_policy (options : option Index.RetryOptions)
    (errOf : Z -> string) (w : W) :
  options = None \/ options = Some (Index.mkRetryOptions None None) ->
  (forall a w', fst (await_fn a w') = Rejected (TError (errOf a))) ->
  exists w',
    Index.retry await_fn await_sleep log options w
    = (Rejected (TError (errOf 3)), w') /\
    calls w' = (calls w + 3)%nat /\
    waits w' = (waits w ++ [200; 400; 600])%list.
Proof.
  intros Hopt Hfail.
  destruct (retry_always_failing await_fn await_sleep log calls waits
              fn_observed sleep_observed log_observed 3 200 errOf w
              ltac:(bounds) ltac:(rewrite max_safe_eq; simpl; lia) Hfail)
    as [w' [Hrun [Hc Hw]]].
  exists w'. split; [|split; assumption].
  destruct Hopt; subst options; exact Hrun.
Qed.

End RetryBudget.


Lemma fails_when_always (a : Z) (s : Spy) :
  fst (spy_fn (fails_when (fun _ => true)) a s)
  = Rejected (TError ("failure " ++ string_of_Z a)).
Proof. reflexivity. Qed.

Lemma retry_exhausted_waits_after_every_attempt_witness :
  exists w',
    Index.retry (spy_fn (fails_when (fun _ => true))) spy_sleep spy_log
      (Some (Index.mkRetryOptions (Some 4) (Some 150))) (mkSpy 0 [] [])
    = (Rejected (TError ("failure " ++ string_of_Z 4)), w') /\
    spy_calls w' = (0 + Z.to_nat 4)%nat /\
    spy_waits w' = ([] ++ map (fun i => 150 * Z.of_nat i)
                            (seq 1 (Z.to_nat 4)))%list /\
    2 * (sumZ (spy_waits w') - sumZ []) = 150 * (4 * (4 + 1)).
Proof.
  apply (retry_exhausted_waits_after_every_attempt
           (spy_fn (fails_when (fun _ => true)))
           spy_sleep spy_log spy_calls spy_waits
           (spy_fn_observed (fails_when (fun _ => true))) spy_sleep_observed
           spy_log_observed 4 150 (fun a => "failure " ++ string_of_Z a)
           (mkSpy 0 [] [])).
  - rewrite max_safe_eq. lia.
  - rewrite max_safe_eq. simpl. lia.
  - exact fails_when_always.
Defined.

Lemma retry_stops_on_rejection_without_message_witness :
  exists m,
    Index.retry (spy_fn rejects_undefined) spy_sleep spy_log
      (Some (Index.mkRetryOptions (Some 3) (Some 200))) (mkSpy 0 [] [])
    = (Rejected (TError m), snd (spy_fn rejects_undefined 1 (mkSpy 0 [] []))).
Proof.
  apply (retry_stops_on_rejection_without_message (spy_fn rejects_undefined)
           spy_sleep spy_log 3 200 (mkSpy 0 [] [])).
  - lia.
  - reflexivity.
Defined.

Lemma retry_default_policy_witness :
  exists w',
    Index.retry (spy_fn (fails_when (fun _ => true))) spy_sleep spy_log None
      (mkSpy 0 [] [])
    = (Rejected (TError ("failure " ++ string_of_Z 3)), w') /\
    spy_calls w' = (0 + 3)%nat /\
    spy_waits w' = ([] ++ [200; 400; 600])%list.
Proof.
  apply (retry_default_policy (spy_fn (fails_when (fun _ => true)))
           spy_sleep spy_log spy_calls spy_waits
           (spy_fn_observed (fails_when (fun _ => true))) spy_sleep_observed
           spy_log_observed None (fun a => "failure " ++ string_of_Z a)
           (mkSpy 0 [] [])).
  - left. reflexivity.
  - exact fails_when_always.
Defined.

(** ** The retry controller over simulated operations *)

Section RetryOverFakeIO.
Variable nm : string.
Variable ms : Z.
Variable failRate : option Q.
Variable d : Z.
Hypothesis ms_range : 1 <= ms <= TIMEOUT_MAX.
Hypothesis d_positive : 1 <= d.

Local Abbreviation factory :=
  (fun _ : Z => p <- Index.fakeIO nm ms failRate ;; await p).
Local Abbreviation rate :=
  (match failRate with Some f => f | None => 0%Q end).
Local Abbreviation message := ("[" ++ nm ++ "] failed (simulated)").
Local Abbreviation run_loop :=
  (Index.retry_loop factory Index.await_sleep console_log d).

(** [j] failed attempts in a row, from attempt [a] on, with waits of at most
    2^31 - 1 ms: each attempt takes [ms] and is followed by its backoff wait
    and its console line. *)
Lemma retry_loop_fakeIO_failures (j : nat) :
  forall (rem : nat) (a : Z) (e0 : Thrown) (st : State),
    1 <= a ->
    (forall i, (i < j)%nat -> d * (a + Z.of_nat i) <= TIMEOUT_MAX) ->
    (forall i, (i < j)%nat -> num_lt (random st (issued st + i)) rate = true) ->
    run_loop (j + rem)%nat a e0 st
    = run_loop rem (a + Z.of_nat j)
        (match j with O => e0 | S _ => TError message end)
        (mkState (now st + Z.of_nat j * ms + sumZ (backoffs d a j))
           (issued st + j) (random st)
           (console st ++ attempt_lines message d a j)).
Proof.
  induction j as [|j IH]; intros rem a e0 st Ha Hwait Hdraws.
  - cbn [backoffs attempt_lines sumZ fold_right Nat.add Z.of_nat].
    rewrite app_nil_r, Nat.add_0_r, Z.add_0_r.
    replace (now st + 0 * ms + 0) with (now st) by lia.
    destruct st; reflexivity.
  - assert (H0 : 1 <= d * a <= TIMEOUT_MAX).
    { specialize (Hwait O ltac:(lia)). rewrite Z.add_0_r in Hwait. nia. }
    assert (Hale : a <= d * a) by nia.
    assert (Hm : js_mul d a = d * a) by (apply js_mul_safe; bounds).
    assert (Ha1 : js_add a 1 = a + 1) by (apply js_add_safe; bounds).
    change (S j + rem)%nat with (S (j + rem)).
    rewrite (retry_loop_attempt_rejected _ _ _ d (j + rem) a e0 message st);
      try reflexivity.
    2:{ cbv beta. rewrite await_fakeIO_eq.
        rewrite <- (Nat.add_0_r (issued st)), (Hdraws O) by lia. reflexivity. }
    rewrite Ha1. cbv beta. rewrite await_fakeIO_eq.
    unfold Index.await_sleep at 2.
    unfold Index.sleep, set_timeout, await, console_log, bind.
    cbn [snd fst console random settleAt outcome now issued].
    rewrite IH.
    + cbn [now issued random console].
      f_equal; [lia | now destruct j |].
      f_equal.
      * rewrite Hm, (timer_delay_in_range ms ms_range),
          (timer_delay_in_range (d * a) H0).
        cbn [backoffs sumZ fold_right]. fold (sumZ (backoffs d (a + 1) j)).
        lia.
      * lia.
      * rewrite <- app_assoc. reflexivity.
    + lia.
    + intros i Hi.
      replace (a + 1 + Z.of_nat i) with (a + Z.of_nat (S i)) by lia.
      apply Hwait. lia.
    + intros i Hi. cbn [random issued].
      replace (S (issued st) + i)%nat with (issued st + S i)%nat by lia.
      apply Hdraws. lia.
Qed.

(** The run of the controller when the first [j] draws fail and the next
    one does not, within the budget. *)
Lemma retry_fakeIO_success_run (retries : Z) (j : nat) (st : State) :
  (j < Z.to_nat retries)%nat ->
  d * Z.of_nat j <= TIMEOUT_MAX ->
  (forall i, (i < j)%nat -> num_lt (random st (issued st + i)) rate = true) ->
  num_lt (random st (issued st + j)) rate = false ->
  Index.retry factory Index.await_sleep console_log
    (Some (Index.mkRetryOptions (Some retries) (Some d))) st
  = (Fulfilled
       (mkResult nm ms (now st + Z.of_nat (S j) * ms + sumZ (backoffs d 1 j))),
     mkState (now st + Z.of_nat (S j) * ms + sumZ (backoffs d 1 j))
       (issued st + S j) (random st)
       (console st ++ attempt_lines message d 1 j)).
Proof.
  intros Hj Hwait Hfail Hok. unfold Index.retry.
  cbn [Index.retries Index.delayMs].
  replace (Z.to_nat retries) with (j + S (Z.to_nat retries - S j))%nat by lia.
  rewrite retry_loop_fakeIO_failures
    by first [ lia | exact Hfail | intros i Hi; nia ].
  rewrite (retry_loop_attempt_fulfilled _ _ _ d _ _ _
             (mkResult nm ms (now st + Z.of_nat (S j) * ms
                              + sumZ (backoffs d 1 j)))).
  - cbv beta. rewrite await_fakeIO_eq. cbn [now issued random console].
    rewrite Hok. rewrite (timer_delay_in_range ms ms_range).
    replace (now st + Z.of_nat j * ms + sumZ (backoffs d 1 j) + ms)
      with (now st + Z.of_nat (S j) * ms + sumZ (backoffs d 1 j)) by lia.
    rewrite Z.max_r by lia.
    replace (S (issued st + j)) with (issued st + S j)%nat by lia.
    reflexivity.
  - cbv beta. rewrite await_fakeIO_eq. cbn [now issued random console fst].
    rewrite Hok. rewrite (timer_delay_in_range ms ms_range).
    do 2 f_equal. lia.
Qed.

(** The run of the controller when every draw of the budget fails. *)
Lemma retry_fakeIO_exhausted_run (retries : Z) (st : State) :
  1 <= retries ->
  d * retries <= TIMEOUT_MAX ->
  (forall i, (i < Z.to_nat retries)%nat ->
             num_lt (random st (issued st + i)) rate = true) ->
  Index.retry factory Index.await_sleep console_log
    (Some (Index.mkRetryOptions (Some retries) (Some d))) st
  = (Rejected (TError message),
     mkState (now st + retries * ms + sumZ (backoffs d 1 (Z.to_nat retries)))
       (issued st + Z.to_nat retries) (random st)
       (console st ++ attempt_lines message d 1 (Z.to_nat retries))).
Proof.
  intros Hr Hwait Hfail. unfold Index.retry.
  cbn [Index.retries Index.delayMs].
  rewrite <- (Nat.add_0_r (Z.to_nat retries)) at 1.
  rewrite retry_loop_fakeIO_failures
    by first [ lia | exact Hfail | intros i Hi; nia ].
  cbn [Index.retry_loop]. unfold throw.
  destruct (Z.to_nat retries) as [|n] eqn:En; [lia|].
  rewrite <- En. do 3 f_equal. lia.
Qed.

(** X5. The controller over a simulated operation of duration [ms] with base
    delay [d], the duration and every wait between 1 and 2^31 - 1 ms, when
    the first [j] draws fail and draw [j + 1], still within the budget, does
    not: it fulfils with the result of attempt [j + 1], whose timestamp is
    the instant the controller returns,
    [(j + 1) * ms + d * (1 + ... + j)] after the start; [j + 1] operations
    were started and one console line was written per failed attempt. *)
Theorem retry_fakeIO_elapsed_until_success (retries : Z) (j : nat) (st : State) :
  (j < Z.to_nat retries)%nat ->
  d * Z.of_nat j <= TIMEOUT_MAX ->
  (forall i, (i < j)%nat -> num_lt (random st (issued st + i)) rate = true) ->
  num_lt (random st (issued st + j)) rate = false ->
  exists finish,
    2 * (finish - now st)
    = 2 * (Z.of_nat j + 1) * ms + d * (Z.of_nat j * (Z.of_nat j + 1)) /\
    Index.retry factory Index.await_sleep console_log
      (Some (Index.mkRetryOptions (Some retries) (Some d))) st
    = (Fulfilled (mkResult nm ms finish),
       mkState finish (issued st + S j) (random st)
         (console st ++ attempt_lines message d 1 j)).
Proof.
  intros Hj Hwait Hfail Hok.
  exists (now st + Z.of_nat (S j) * ms + sumZ (backoffs d 1 j)). split.
  - pose proof (sumZ_backoffs d j). lia.
  - exact (retry_fakeIO_success_run retries j st Hj Hwait Hfail Hok).
Qed.

(** X6. The same controller when all [retries >= 1] draws fail, the duration
    and every wait again between 1 and 2^31 - 1 ms: it rejects with the
    operation's error after [retries * ms + d * (1 + ... + retries)], the
    wait after the last attempt included, having started [retries]
    operations. *)
Theorem retry_fakeIO_elapsed_when_exhausted (retries : Z) (st : State) :
  1 <= retries ->
  d * retries <= TIMEOUT_MAX ->
  (forall i, (i < Z.to_nat retries)%nat ->
             num_lt (random st (issued st + i)) rate = true) ->
  exists finish,
    2 * (finish - now st) = 2 * retries * ms + d * (retries * (retries + 1)) /\
    Index.retry factory Index.await_sleep console_log
      (Some (Index.mkRetryOptions (Some retries) (Some d))) st
    = (Rejected (TError message),
       mkState finish (issued st + Z.to_nat retries) (random st)
         (console st ++ attempt_lines message d 1 (Z.to_nat retries))).
Proof.
  intros Hr Hwait Hfail.
  exists (now st + retries * ms + sumZ (backoffs d 1 (Z.to_nat retries))). split.
  - pose proof (backoffs_total d retries Hr). lia.
  - exact (retry_fakeIO_exhausted_run retries st Hr Hwait Hfail).
Qed.

End RetryOverFakeIO.

Lemma retry_fakeIO_elapsed_until_success_witness :
  exists finish,
    2 * (finish - 0)
    = 2 * (Z.of_nat 2 + 1) * 150 + 150 * (Z.of_nat 2 * (Z.of_nat 2 + 1)) /\
    Index.retry
      (fun _ : Z => p <- Index.fakeIO "unstable" 150 (Some (65 # 100)%Q) ;; await p)
      Index.await_sleep console_log
      (Some (Index.mkRetryOptions (Some 4) (Some 150)))
      (mkState 0 0 (low_then_high 2) [])
    = (Fulfilled (mkResult "unstable" 150 finish),
       mkState finish (0 + 3) (low_then_high 2)
         ([] ++ attempt_lines ("[" ++ "unstable" ++ "] failed (simulated)")
                  150 1 2)).
Proof.
  apply (retry_fakeIO_elapsed_until_success "unstable" 150 (Some (65 # 100)%Q)
           150 ltac:(bounds) ltac:(lia) 4 2 (mkState 0 0 (low_then_high 2) [])).
  - simpl. lia.
  - rewrite TIMEOUT_MAX_eq. simpl. lia.
  - intros i Hi. destruct i as [|[|i]]; [reflexivity | reflexivity | lia].
  - reflexivity.
Defined.

Lemma retry_fakeIO_elapsed_when_exhausted_witness :
  exists finish,
    2 * (finish - 0) = 2 * 4 * 150 + 150 * (4 * (4 + 1)) /\
    Index.retry
      (fun _ : Z => p <- Index.fakeIO "unstable" 150 (Some (65 # 100)%Q) ;; await p)
      Index.await_sleep console_log
      (Some (Index.mkRetryOptions (Some 4) (Some 150)))
      (mkState 0 0 (low_then_high 4) [])
    = (Rejected (TError ("[" ++ "unstable" ++ "] failed (simulated)")),
       mkState finish (0 + Z.to_nat 4) (low_then_high 4)
         ([] ++ attempt_lines ("[" ++ "unstable" ++ "] failed (simulated)")
                  150 1 (Z.to_nat 4))).
Proof.
  apply (retry_fakeIO_elapsed_when_exhausted "unstable" 150
           (Some (65 # 100)%Q) 150 ltac:(bounds) ltac:(lia) 4
           (mkState 0 0 (low_then_high 4) [])).
  - lia.
  - rewrite TIMEOUT_MAX_eq. lia.
  - intros i Hi. destruct i as [|[|[|[|i]]]]; try reflexivity.
    simpl in Hi. lia.
Defined.

(** ** The retry scenario *)

Lemma leading_failures_spec (fails : nat -> bool) (budget : nat) :
  forall from : nat,
    let j := leading_failures fails from budget in
    (j <= budget)%nat /\
    (forall i, (i < j)%nat -> fails (from + i)%nat = true) /\
    ((j < budget)%nat -> fails (from + j)%nat = false).
Proof.
  induction budget as [|budget IH]; intro from; cbn [leading_failures].
  - repeat split; intros; lia.
  - destruct (fails from) eqn:E.
    + destruct (IH (S from)) as [Hle [Hbelow Hstop]]. repeat split.
      * lia.
      * intros [|i] Hi; [now rewrite Nat.add_0_r|].
        replace (from + S i)%nat with (S from + i)%nat by lia.
        apply Hbelow. lia.
      * intro Hlt.
        replace (from + S (leading_failures fails (S from) budget))%nat
          with (S from + leading_failures fails (S from) budget)%nat by lia.
        apply Hstop. lia.
    + repeat split; intros; try lia. now rewrite Nat.add_0_r.
Qed.

(** X7. The retry scenario for every oracle.  With [j] the number of draws
    below 0.65 at the head of the next four, it makes [min (j + 1) 4]
    attempts of 150 ms, waits [150 * i] after failed attempt [i], prints one
    line per failed attempt and then either the result (when [j < 4]) or
    ["failed after retries:"] with the operation's error (when [j = 4]);
    it never rejects. *)
Theorem demoRetry_run (st : State) :
  let j := leading_failures
             (fun i => num_lt (random st (issued st + i)) (65 # 100)) 0 4 in
  let attempts := Nat.min (S j) 4 in
  let finish := now st + Z.of_nat attempts * 150 + sumZ (backoffs 150 1 j) in
  Index.demoRetry st
  = (Fulfilled tt,
     mkState finish (issued st + attempts) (random st)
       (console st
        ++ Log [AStr (nl ++ "=== 7) Retry with backoff ===")]
           :: attempt_lines "[unstable] failed (simulated)" 150 1 j
        ++ [if (j <? 4)%nat
            then Log [AStr "success after retry:";
                      ARes (mkResult "unstable" 150 finish)]
            else Error [AStr "failed after retries:";
                        AStr "[unstable] failed (simulated)"]])).
Proof.
  intros j attempts finish.
  destruct (leading_failures_spec
              (fun i => num_lt (random st (issued st + i)) (65 # 100)) 4 0)
    as [Hle [Hbelow Hstop]].
  fold j in Hle, Hbelow, Hstop. cbn [Nat.add] in Hbelow, Hstop.
  unfold Index.demoRetry, try_catch. unfold bind at 1.
  unfold console_log at 1. unfold bind at 1.
  destruct (Nat.ltb_spec j 4) as [Hlt | Hge].
  - rewrite (retry_fakeIO_success_run "unstable" 150 (Some (65 # 100)%Q) 150
               ltac:(bounds) ltac:(lia) 4 j)
      by (cbn [now issued random console];
          first [lia | bounds | assumption | auto]).
    cbn [now issued random console]. unfold console_log.
    cbn [now issued random console].
    subst finish attempts. replace (Nat.min (S j) 4) with (S j) by lia.
    rewrite <- !app_assoc. reflexivity.
  - assert (Hj : j = 4%nat) by lia.
    rewrite (retry_fakeIO_exhausted_run "unstable" 150 (Some (65 # 100)%Q) 150
               ltac:(bounds) ltac:(lia) 4)
      by (cbn [now issued random console];
          first [lia | bounds
                | intros i Hi; apply Hbelow; rewrite Hj; exact Hi]).
    cbn [now issued random console message_of]. unfold bind, ret, console_error.
    cbn [now issued random console].
    subst finish attempts. rewrite Hj.
    rewrite <- !app_assoc. reflexivity.
Qed.

(** ** The other scenarios *)

(** Brings the clocks of an evaluated scenario to the form [now st + ...]. *)
Ltac settle_clocks :=
  repeat first [rewrite Z.max_r by lia | rewrite Z.max_l by lia].

(** X8. The sequential-await scenario for every oracle: it never rejects.
    Step 2 is started only after step 1 has succeeded, 200 ms in; the
    scenario returns its final value after 400 ms when both steps
    succeed, and otherwise the fallback value, at the instant of the failure,
    having printed the failed step's message on the error stream. *)
Theorem demoAsyncAwait_run (st : State) :
  let fails1 := num_lt (random st (issued st)) 0 in
  let fails2 := num_lt (random st (S (issued st))) 0 in
  Index.demoAsyncAwait st
  = (Fulfilled (if fails1 || fails2
                then "async/await fallback result"
                else "final result from async/await"),
     mkState (if fails1 then now st + 200 else now st + 200 + 200)
       (if fails1 then S (issued st) else S (S (issued st)))
       (random st)
       (console st
        ++ Log [AStr (nl ++ "=== 2) async / await (try / catch) ===")]
           :: (if fails1
               then [Error [AStr "error in async/await:";
                            AStr "[await-1] failed (simulated)"]]
               else Log [AStr "success:";
                         ARes (mkResult "await-1" 200 (now st + 200))]
                    :: (if fails2
                        then [Error [AStr "error in async/await:";
                                     AStr "[await-2] failed (simulated)"]]
                        else [Log [AStr "success:";
                                   ARes (mkResult "await-2" 200
                                           (now st + 200 + 200))]])))).
Proof.
  intros fails1 fails2. subst fails1 fails2.
  unfold Index.demoAsyncAwait, console_log, console_error, try_catch.
  unfold bind at 1. unfold bind at 1. unfold bind at 1.
  step_io. unfold await at 1. cbn [outcome settleAt].
  destruct (num_lt (random st (issued st)) 0).
  - cbn [orb message_of outcome]. unfold bind, ret.
    cbn [now issued random console]. settle_clocks.
    rewrite <- ?app_assoc. reflexivity.
  - cbn [orb outcome]. unfold bind at 1. unfold bind at 1. unfold bind at 1.
    step_io. unfold await at 1. cbn [outcome settleAt].
    destruct (num_lt (random st (S (issued st))) 0);
      cbn [message_of outcome]; unfold bind, ret;
      cbn [now issued random console]; settle_clocks;
      rewrite <- ?app_assoc; reflexivity.
Qed.

(** X9. The chain scenario for every oracle: step 2 is started only after
    step 1 has succeeded, 300 ms in, so two successful steps take
    300 + 250 ms; a failed step ends the chain at once with its message on
    the error stream; the finalization line comes last in every case. *)
Theorem demoPromiseChain_run (st : State) :
  let fails1 := num_lt (random st (issued st)) 0 in
  let fails2 := num_lt (random st (S (issued st))) 0 in
  Index.demoPromiseChain st
  = (Fulfilled (if fails1 || fails2
                then "chain recovered with fallback"
                else "final result from promise chain"),
     mkState (if fails1 then now st + 300 else now st + 300 + 250)
       (if fails1 then S (issued st) else S (S (issued st)))
       (random st)
       (console st
        ++ Log [AStr (nl ++ "=== 1) Promise chain (then / catch / finally) ===")]
           :: (if fails1
               then [Error [AStr "error in chain:";
                            AStr "[step-1] failed (simulated)"]]
               else Log [AStr "success:";
                         ARes (mkResult "step-1" 300 (now st + 300))]
                    :: (if fails2
                        then [Error [AStr "error in chain:";
                                     AStr "[step-2] failed (simulated)"]]
                        else [Log [AStr "success:";
                                   ARes (mkResult "step-2" 250
                                           (now st + 300 + 250))]]))
        ++ [Log [AStr "finally: always executed"]])).
Proof.
  intros fails1 fails2. subst fails1 fails2.
  unfold Index.demoPromiseChain, console_log, console_error, finally, try_catch.
  unfold bind at 1. unfold bind at 1. unfold bind at 1. unfold bind at 1.
  step_io. unfold await at 1. cbn [outcome settleAt].
  destruct (num_lt (random st (issued st)) 0).
  - cbn [orb message_of outcome]. unfold bind, ret.
    cbn [now issued random console]. settle_clocks.
    rewrite <- ?app_assoc. reflexivity.
  - cbn [orb outcome]. unfold bind at 1. unfold bind at 1. step_io.
    unfold await at 1. cbn [outcome settleAt].
    destruct (num_lt (random st (S (issued st))) 0);
      cbn [message_of outcome]; unfold bind, ret;
      cbn [now issued random console]; settle_clocks;
      rewrite <- ?app_assoc; reflexivity.
Qed.

(** X10. The timeout scenario for every oracle: the 500 ms operation loses
    against the 250 ms timer, whatever its own outcome would be; the
    scenario prints the timeout message on the error stream, resumes at
    250 ms without waiting for the operation, and never rejects. *)
Theorem demoTimeout_run (st : State) :
  Index.demoTimeout st
  = (Fulfilled tt,
     mkState (now st + 250) (S (issued st)) (random st)
       (console st
        ++ [Log [AStr (nl ++ "=== 6) Timeout (Promise.race + timer) ===")];
            Error [AStr "timeout/error:"; AStr "timeout after 250ms"]])).
Proof.
  unfold Index.demoTimeout, Index.withTimeout, console_log, console_error,
    try_catch, set_timeout.
  unfold bind at 1. unfold bind at 1. step_io.
  unfold bind, promise_race, first_settled, seenAt, await.
  cbn [fold_left settleAt outcome fst now].
  destruct (Z.ltb_spec (Z.max (now st) (now st + 250))
                       (Z.max (now st) (now st + 500))) as [_|Hge];
    [|lia].
  cbn [outcome message_of issued random console now settleAt]. unfold ret.
  cbn [issued random console now]. settle_clocks.
  rewrite <- ?app_assoc. reflexivity.
Qed.

(** X11. The parallel scenario with draws in [[0, 1)]: the three operations
    run side by side, so the scenario takes 400 ms, the longest of the
    three delays and not their sum; the names are printed in the order of
    the array, A, B, C, although the operations complete in the order
    C, B, A. *)
Theorem demoParallelAll_run (st : State) :
  valid_oracle (random st) ->
  Index.demoParallelAll st
  = (Fulfilled tt,
     mkState (now st + 400) (S (S (S (issued st)))) (random st)
       (console st
        ++ [Log [AStr (nl ++ "=== 3) Parallel execution with Promise.all ===")];
            Log [AStr "results:"; ANames ["A"; "B"; "C"]];
            Log [AStr "elapsed(ms):"; ANum 400]])).
Proof.
  intro Hv.
  unfold Index.demoParallelAll, console_log, date_now.
  unfold bind at 1. unfold bind at 1.
  unfold bind at 1. step_io. zero_rate Hv.
  unfold bind at 1. step_io. zero_rate Hv.
  unfold bind at 1. step_io. zero_rate Hv.
  unfold bind, promise_all, await, last_settled.
  cbn [filter is_rejected outcome settleAt fulfilled_values map name fold_left
       now issued random console].
  settle_clocks. replace (now st + 400 - now st) with 400 by lia.
  rewrite <- ?app_assoc. reflexivity.
Qed.

Lemma demoParallelAll_run_witness :
  Index.demoParallelAll (mkState 950 4 (fun _ => (1 # 2)%Q) [])
  = (Fulfilled tt,
     mkState (950 + 400) 7 (fun _ => (1 # 2)%Q)
       ([] ++ [Log [AStr (nl ++ "=== 3) Parallel execution with Promise.all ===")];
               Log [AStr "results:"; ANames ["A"; "B"; "C"]];
               Log [AStr "elapsed(ms):"; ANum 400]])).
Proof.
  apply (demoParallelAll_run (mkState 950 4 (fun _ => (1 # 2)%Q) [])).
  intro i. simpl. split; [discriminate | reflexivity].
Defined.

(** X12. The pipeline with draws in [[0, 1)]: fetch, then the two process
    steps side by side, then save.  It takes 200 + 300 + 150 ms, the process
    stage lasting as long as its slower part, and returns the four results
    with the instants 200, 450, 500 and 650 ms after the start, the
    processed parts in the order of the array. *)
Theorem demoPipeline_run (st : State) :
  valid_oracle (random st) ->
  Index.demoPipeline st
  = (Fulfilled
       (Index.mkPipeline
          (mkResult "fetch-data" 200 (now st + 200))
          [mkResult "process-part-1" 250 (now st + 200 + 250);
           mkResult "process-part-2" 300 (now st + 200 + 300)]
          (mkResult "save" 150 (now st + 200 + 300 + 150))),
     mkState (now st + 200 + 300 + 150) (S (S (S (S (issued st)))))
       (random st)
       (console st
        ++ [Log [AStr (nl ++ "=== 8) Pipeline: fetch -> process -> save ===")];
            Log [AStr "fetched:"; AStr "fetch-data"];
            Log [AStr "processed:"; AStr "process-part-1";
                 AStr "process-part-2"];
            Log [AStr "saved:"; AStr "save"]])).
Proof.
  intro Hv.
  unfold Index.demoPipeline, console_log.
  unfold bind at 1. unfold bind at 1. unfold bind at 1.
  step_io. zero_rate Hv. unfold await at 1. cbn [outcome settleAt].
  unfold bind at 1. unfold bind at 1. step_io. zero_rate Hv.
  unfold bind at 1. step_io. zero_rate Hv.
  unfold bind at 1. unfold promise_all at 1.
  cbn [filter is_rejected outcome settleAt fulfilled_values].
  unfold bind at 1. unfold await at 1. cbn [outcome settleAt].
  unfold bind at 1. unfold bind at 1. unfold bind at 1.
  cbn [now issued random console]. step_io. zero_rate Hv.
  unfold await at 1. unfold bind, ret, last_settled.
  cbn [outcome settleAt now issued random console name fold_left].
  settle_clocks. rewrite <- ?app_assoc. reflexivity.
Qed.

Lemma demoPipeline_run_witness :
  Index.demoPipeline (mkState 0 0 (fun _ => (1 # 2)%Q) [])
  = (Fulfilled
       (Index.mkPipeline
          (mkResult "fetch-data" 200 (0 + 200))
          [mkResult "process-part-1" 250 (0 + 200 + 250);
           mkResult "process-part-2" 300 (0 + 200 + 300)]
          (mkResult "save" 150 (0 + 200 + 300 + 150))),
     mkState (0 + 200 + 300 + 150) 4 (fun _ => (1 # 2)%Q)
       ([] ++ [Log [AStr (nl ++ "=== 8) Pipeline: fetch -> process -> save ===")];
               Log [AStr "fetched:"; AStr "fetch-data"];
               Log [AStr "processed:"; AStr "process-part-1";
                    AStr "process-part-2"];
               Log [AStr "saved:"; AStr "save"]])).
Proof.
  apply (demoPipeline_run (mkState 0 0 (fun _ => (1 # 2)%Q) [])).
  intro i. simpl. split; [discriminate | reflexivity].
Defined.

(** X13. How long the settle-all and the race scenarios take, with draws in
    [[0, 1)]: settle-all resumes when the slowest of its three operations
    has settled, 250 ms in, failed or not; the race resumes with the
    fastest, 120 ms in, and leaves the slow operation behind.  Both start
    all their operations. *)
Theorem settle_all_waits_for_all_race_for_first (st : State) :
  valid_oracle (random st) ->
  (exists st',
     Index.demoAllSettled st = (Fulfilled tt, st') /\
     now st' = now st + 250 /\ issued st' = S (S (S (issued st)))) /\
  (exists st',
     Index.demoRace st = (Fulfilled tt, st') /\
     now st' = now st + 120 /\ issued st' = S (S (issued st))).
Proof.
  intro Hv. split.
  - unfold Index.demoAllSettled, console_log. unfold bind at 1.
    unfold bind at 1. step_io. unfold bind at 1. step_io.
    unfold bind at 1. step_io.
    unfold bind at 1. rewrite promise_allSettled_eq.
    unfold bind at 1. unfold await at 1. unfold last_settled.
    cbn [outcome map settleAt fold_left now].
    unfold settled_of. cbn [outcome].
    destruct (num_lt (random st (issued st)) 0);
      destruct (num_lt (random st (S (issued st))) double_0_7);
      destruct (num_lt (random st (S (S (issued st)))) double_0_2);
      cbn [for_of message_of name]; unfold bind, ret;
      cbn [now issued random console];
      (eexists; split; [reflexivity|]); cbn [now issued];
      (split; [lia | reflexivity]).
  - unfold Index.demoRace, console_log. unfold bind at 1.
    unfold bind at 1. step_io. zero_rate Hv.
    unfold bind at 1. step_io. zero_rate Hv.
    unfold bind, promise_race, first_settled, seenAt, await.
    cbn [fold_left settleAt outcome fst now].
    destruct (Z.ltb_spec (Z.max (now st) (now st + 120))
                         (Z.max (now st) (now st + 400))) as [_|Hge];
      [|lia].
    cbn [outcome name issued random console now settleAt].
    eexists. split; [reflexivity|]. cbn [now issued].
    split; [lia | reflexivity].
Qed.

Lemma settle_all_waits_for_all_race_for_first_witness :
  (exists st',
     Index.demoAllSettled (mkState 0 0 (fun _ => (1 # 2)%Q) [])
     = (Fulfilled tt, st') /\
     now st' = 0 + 250 /\ issued st' = 3%nat) /\
  (exists st',
     Index.demoRace (mkState 0 0 (fun _ => (1 # 2)%Q) []) = (Fulfilled tt, st') /\
     now st' = 0 + 120 /\ issued st' = 2%nat).
Proof.
  apply (settle_all_waits_for_all_race_for_first
           (mkState 0 0 (fun _ => (1 # 2)%Q) [])).
  intro i. simpl. split; [discriminate | reflexivity].
Defined.

(** ** The shorter runner *)

Lemma part000_main_completes :
  completes Part000.main (firstn 6 scenario_banners).
Proof.
  unfold Part000.main.
  eapply completes_eq;
    [| repeat (eapply completes_bind;
               [ first [ apply completes_plain_log; reflexivity
                       | apply demoPromiseChain_completes
                       | apply demoAsyncAwait_completes
                       | apply demoParallelAll_completes
                       | apply demoAllSettled_completes
                       | apply demoRace_completes
                       | apply demoTimeout_completes ]
               | intro; cbv beta ]);
       apply completes_plain_log; reflexivity ].
  vm_compute. reflexivity.
Qed.

(** X14. The runner of [src/unnamed/part_000], with draws in [[0, 1)]: it
    runs to completion and prints the banners of the first six scenarios,
    chain to timeout, once each and in this order; it has no retry and no
    pipeline scenario. *)
Theorem part000_main_runs_six_scenarios_in_order (st : State) :
  valid_oracle (random st) ->
  exists st',
    Part000.main st = (Fulfilled tt, st') /\
    banners (console st')
    = (banners (console st) ++ firstn 6 scenario_banners)%list.
Proof.
  intro Hv. destruct (part000_main_completes st Hv) as [[] [st' [Hrun [_ Hb]]]].
  exists st'. split; assumption.
Qed.

Lemma part000_main_runs_six_scenarios_in_order_witness :
  exists st',
    Part000.main (mkState 0 0 (fun _ => (1 # 2)%Q) []) = (Fulfilled tt, st') /\
    banners (console st') = ([] ++ firstn 6 scenario_banners)%list.
Proof.
  apply (part000_main_runs_six_scenarios_in_order
           (mkState 0 0 (fun _ => (1 # 2)%Q) [])).
  intro i. simpl. split; [discriminate | reflexivity].
Defined.

(** ** More on the timeout wrapper and the simulated operation *)

(** X15. For every promise and every [ms] up to 2^53 in magnitude, negative
    ones included: the wrapper settles no later than the timer fires, that
    is [ms] after the call, or 1 ms after it when [ms] is below 1 or above
    2^31 - 1; it settles either with the promise's own outcome or with the
    timeout error; it fulfils only with a value the promise fulfilled with,
    the promise having settled by then. *)
Theorem withTimeout_never_late {A : Type} (promise : Promise A) (ms : Z)
    (st : State) :
  Z.abs ms <= max_safe ->
  exists guarded,
    Index.withTimeout promise ms st = (Fulfilled guarded, st) /\
    now st <= settleAt guarded <= now st + timer_delay ms /\
    (outcome guarded = outcome promise \/
     outcome guarded
     = Rejected (TError ("timeout after " ++ string_of_Z ms ++ "ms"))) /\
    (forall v, outcome guarded = Fulfilled v ->
               outcome promise = Fulfilled v /\
               settleAt promise <= now st + timer_delay ms).
Proof.
  intro Hsafe. rewrite withTimeout_eq, (number_to_string_safe ms Hsafe).
  pose proof (timer_delay_positive ms) as Hd.
  destruct (Z.ltb_spec (now st + timer_delay ms)
                       (Z.max (now st) (settleAt promise))) as [Hlt | Hge];
    eexists; (split; [reflexivity|]); cbn [settleAt outcome].
  - split; [lia|]. split; [right; reflexivity|]. intros v Hv. discriminate.
  - split; [lia|]. split; [left; reflexivity|]. intros v Hv.
    split; [exact Hv | lia].
Qed.

(** A timeout of -5 ms around a promise that settles 3 ms after the call:
    the timer fires after 1 ms. *)
Lemma withTimeout_never_late_witness :
  exists guarded,
    Index.withTimeout (mkPromise 3 (Fulfilled tt)) (-5)
      (mkState 0 0 (fun _ => (1 # 2)%Q) [])
    = (Fulfilled guarded, mkState 0 0 (fun _ => (1 # 2)%Q) []) /\
    0 <= settleAt guarded <= 0 + timer_delay (-5) /\
    (outcome guarded = Fulfilled tt \/
     outcome guarded
     = Rejected (TError ("timeout after " ++ string_of_Z (-5) ++ "ms"))) /\
    (forall v, outcome guarded = Fulfilled v ->
               Fulfilled tt = Fulfilled v /\ 3 <= 0 + timer_delay (-5)).
Proof.
  apply (withTimeout_never_late (mkPromise 3 (Fulfilled tt)) (-5)
           (mkState 0 0 (fun _ => (1 # 2)%Q) [])).
  rewrite max_safe_eq. simpl. lia.
Defined.

(** X16. Raising the failure rate never turns a failure into a success: for
    the same draw, an operation that fails at rate [f] fails at every rate
    [g >= f].  With a draw in [[0, 1)], every rate of 1 or more fails and
    every rate of 0 or less succeeds. *)
Theorem fakeIO_failure_monotone_in_rate (nm : string) (ms : Z) (f g : Q)
    (st : State) :
  (f <= g)%Q ->
  exists pf pg st',
    Index.fakeIO nm ms (Some f) st = (Fulfilled pf, st') /\
    Index.fakeIO nm ms (Some g) st = (Fulfilled pg, st') /\
    (is_rejected pf = true -> is_rejected pg = true) /\
    ((0 <= random st (issued st) < 1)%Q ->
     ((1 <= g)%Q -> is_rejected pg = true) /\
     ((f <= 0)%Q -> is_rejected pf = false)).
Proof.
  intro Hfg. rewrite !fakeIO_eq. eexists; eexists; eexists.
  split; [reflexivity|]. split; [reflexivity|].
  unfold is_rejected. cbn [outcome].
  destruct (num_lt (random st (issued st)) f) eqn:Ef;
    destruct (num_lt (random st (issued st)) g) eqn:Eg.
  - split; [reflexivity|]. intros [Hlo Hhi]. split; [reflexivity|].
    intro Hf0. apply num_lt_iff in Ef. exfalso.
    apply (Qlt_not_le _ _ Ef). exact (Qle_trans _ _ _ Hf0 Hlo).
  - exfalso. apply num_lt_iff in Ef.
    assert (Hg : (random st (issued st) < g)%Q)
      by exact (Qlt_le_trans _ _ _ Ef Hfg).
    apply num_lt_iff in Hg. congruence.
  - split; [discriminate|]. intros _. split; reflexivity.
  - split; [discriminate|]. intros [Hlo Hhi]. split; [|reflexivity].
    intro Hg1. exfalso.
    assert (Hg : (random st (issued st) < g)%Q)
      by exact (Qlt_le_trans _ _ _ Hhi Hg1).
    apply num_lt_iff in Hg. congruence.
Qed.

Lemma fakeIO_failure_monotone_in_rate_witness :
  exists pf pg st',
    Index.fakeIO "S3" 150 (Some (2 # 10)%Q) (mkState 0 0 (fun _ => (1 # 10)%Q) [])
    = (Fulfilled pf, st') /\
    Index.fakeIO "S3" 150 (Some (7 # 10)%Q) (mkState 0 0 (fun _ => (1 # 10)%Q) [])
    = (Fulfilled pg, st') /\
    (is_rejected pf = true -> is_rejected pg = true) /\
    ((0 <= (1 # 10) < 1)%Q ->
     ((1 <= 7 # 10)%Q -> is_rejected pg = true) /\
     ((2 # 10 <= 0)%Q -> is_rejected pf = false)).
Proof.
  apply (fakeIO_failure_monotone_in_rate "S3" 150 (2 # 10)%Q (7 # 10)%Q
           (mkState 0 0 (fun _ => (1 # 10)%Q) [])).
  discriminate.
Defined.
